(** * audio_capture_macos: a shallow embedding of the capture module

    The development follows [src/native-modules/macos/audio_capture_macos.cc].
    The four process-wide globals become the record [globals]; every exported
    operation is a function from the globals and the outcomes of the platform
    calls it makes (an environment record) to its JavaScript result, the new
    globals and the ordered trace of platform calls it issued.  The render
    callback is embedded the same way, its samples being IEEE-754 binary32
    values computed with the parameterised operations of [SpecFloat].

    Diagnostics written to [std::cout] / [std::cerr] are not part of the
    model, and neither is the interleaving of the audio thread with the
    JavaScript thread: every operation is taken as one atomic step. *)

From Stdlib Require Import ZArith QArith Lia Bool List.
From Stdlib Require Import Floats.SpecFloat.
From stdpp Require Import base list strings.

Local Open Scope Z_scope.

(** ** Machine integers and platform constants *)

(** [UInt32] arithmetic wraps modulo 2^32. *)
Definition wrap32 (z : Z) : Z := z mod 2 ^ 32.

Definition OSStatus := Z.
Definition napi_status := Z.
Definition AudioDeviceID := Z.

(** Values of the platform headers ([MacTypes.h], [AudioHardwareBase.h],
    [js_native_api_types.h]); the headers are not part of the repository.
    Only the fact that the first three denote "no error", "no device" and
    "ok" is used by the code. *)
Definition noErr : OSStatus := 0.
Definition kAudioDeviceUnknown : AudioDeviceID := 0.
Definition napi_ok : napi_status := 0.
Definition kAudioHardwareBadDeviceError : OSStatus := 560227702.
Definition sizeof_AudioDeviceID : Z := 4.

(** Opaque handles: a null pointer is [None]. *)
Definition AudioUnit := positive.
Definition ThreadSafeFunction := positive.
Definition ptr := positive.

(** ** IEEE-754 binary32 ([float]) *)

Definition prec : Z := 24.
Definition emax : Z := 128.
Definition float32 := spec_float.

Definition fdiv : float32 -> float32 -> float32 := SFdiv prec emax.
Definition fadd : float32 -> float32 -> float32 := SFadd prec emax.
Definition fmul : float32 -> float32 -> float32 := SFmul prec emax.
Definition fleb : float32 -> float32 -> bool := SFleb.

(** [(float)x] for an [int16_t] x. *)
Definition float_of_int16 (z : Z) : float32 := binary_normalize prec emax z 0 false.

(** The literals [32768.0f], [0.5f], and the [0.0f] of a value-initialised
    vector element. *)
Definition f32768 : float32 := S754_finite false 8388608 (-8).
Definition fhalf : float32 := S754_finite false 8388608 (-24).
Definition fzero : float32 := S754_zero false.
Definition fone : float32 := S754_finite false 8388608 (-23).

(** Lines 278-280: one output sample from one stereo frame. *)
Definition mix_sample (l r : Z) : float32 :=
  let leftSample := fdiv (float_of_int16 l) f32768 in
  let rightSample := fdiv (float_of_int16 r) f32768 in
  fmul (fadd leftSample rightSample) fhalf.

Definition is_int16 (z : Z) : Prop := -32768 <= z <= 32767.

Definition is_nan (x : float32) : bool :=
  match x with S754_nan => true | _ => false end.

(** The real number a binary32 datum denotes, as a rational: [m * 2^e],
    signed; infinities and NaN denote none. *)
Definition SF2Q (x : float32) : option Q :=
  match x with
  | S754_zero _ => Some 0%Q
  | S754_finite s m e =>
      let n := if s then Zneg m else Zpos m in
      Some (if 0 <=? e then inject_Z (n * 2 ^ e) else Qmake n (Z.to_pos (2 ^ (- e))))
  | _ => None
  end.

(** The converter's formula read over the rationals. *)
Definition exact_mix (l r : Z) : Q :=
  ((inject_Z l / 32768 + inject_Z r / 32768) * (1 # 2))%Q.

(** Auxiliary notions for the exactness proofs: a mantissa shifted left, the
    bit length of a mantissa, and the normal binary32 representation of
    [z * 2^e] for a [z] of at most 24 bits. *)
Definition shl (q : positive) (k : Z) : positive :=
  match k with Zpos n => Pos.iter xO q n | _ => q end.

Definition digits (q : positive) : Z := Zpos (digits2_pos q).

Definition mant (z : Z) : positive := Z.to_pos (Z.abs z).

Definition canon (z e : Z) : float32 :=
  match z with
  | Z0 => S754_zero false
  | Zpos q => S754_finite false (shl q (prec - digits q)) (e + digits q - prec)
  | Zneg q => S754_finite true (shl q (prec - digits q)) (e + digits q - prec)
  end.

Definition exact_record (m : positive) : shr_record :=
  {| shr_m := Zpos m; shr_r := false; shr_s := false |}.

(** ** Frame converter (lines 271-281) *)

(** The loop body reads [interleavedSamples[i * 2]] and
    [interleavedSamples[i * 2 + 1]] with [UInt32] index arithmetic and stores
    into [data[i]].  A read outside the sample buffer has no defined
    behaviour: the loop then yields [None]. *)
Fixpoint convert_loop (interleavedSamples : list Z) (n : nat) (i : Z)
    (data : list float32) : option (list float32) :=
  match n with
  | O => Some data
  | S n' =>
      match interleavedSamples !! Z.to_nat (wrap32 (i * 2)),
            interleavedSamples !! Z.to_nat (wrap32 (wrap32 (i * 2) + 1)) with
      | Some l, Some r =>
          convert_loop interleavedSamples n' (i + 1)
                       (<[Z.to_nat i := mix_sample l r]> data)
      | _, _ => None
      end
  end.

(** [data.resize(inNumberFrames)] followed by the loop. *)
Definition convert_frames (interleavedSamples : list Z) (inNumberFrames : Z)
    : option (list float32) :=
  convert_loop interleavedSamples (Z.to_nat inNumberFrames) 0
               (replicate (Z.to_nat inNumberFrames) fzero).

(** ** Platform calls and their trace *)

(** The stream format requested at lines 421-429. *)
Record AudioStreamBasicDescription := {
  mSampleRate : Z;
  mChannelsPerFrame : Z;
  mBitsPerChannel : Z;
  mBytesPerFrame : Z;
  mBytesPerPacket : Z;
  mFramesPerPacket : Z
}.

Definition desiredFormat : AudioStreamBasicDescription :=
  let channels := 2 in
  let bits := 16 in
  let bytesPerFrame := channels * (bits / 8) in
  {| mSampleRate := 48000; mChannelsPerFrame := channels; mBitsPerChannel := bits;
     mBytesPerFrame := bytesPerFrame; mBytesPerPacket := bytesPerFrame;
     mFramesPerPacket := 1 |}.

(** One entry per call into CoreAudio or N-API made by the exported
    operations, with the status it returned where the code looks at it. *)
Inductive event :=
  | EvGetDevicesSize
  | EvGetDevices
  | EvGetDeviceName (d : AudioDeviceID)
  | EvGetDeviceUID (d : AudioDeviceID)
  | EvFindComponent
  | EvInstanceNew (status : OSStatus) (out : option AudioUnit)
  | EvEnableInput (u : AudioUnit) (status : OSStatus)
  | EvDisableOutput (u : AudioUnit) (status : OSStatus)
  | EvSetCurrentDevice (u : AudioUnit) (d : AudioDeviceID) (status : OSStatus)
  | EvSetStreamFormat (u : AudioUnit) (f : AudioStreamBasicDescription) (status : OSStatus)
  | EvGetStreamFormat (u : AudioUnit) (status : OSStatus)
  | EvSetInputCallback (u : AudioUnit) (registered : bool) (status : OSStatus)
  | EvInitialize (u : AudioUnit) (status : OSStatus)
  | EvUninitialize (u : AudioUnit) (status : OSStatus)
  | EvStart (u : AudioUnit) (status : OSStatus)
  | EvStop (u : AudioUnit) (status : OSStatus)
  | EvDispose (u : AudioUnit) (status : OSStatus)
  | EvTsfNew (jsCallback : positive) (out : option ThreadSafeFunction)
  | EvTsfAcquire (t : ThreadSafeFunction)
  | EvTsfRelease (t : ThreadSafeFunction) (status : napi_status).

(** Hardware units a trace acquired (a successful
    [AudioComponentInstanceNew]) and the ones it gave back. *)
Definition acquired_units (tr : list event) : list AudioUnit :=
  flat_map (fun e => match e with
                     | EvInstanceNew status (Some u) => if status =? noErr then [u] else []
                     | _ => []
                     end) tr.

Definition disposed_units (tr : list event) : list AudioUnit :=
  flat_map (fun e => match e with EvDispose u _ => [u] | _ => [] end) tr.

(** Delivery channels a trace created. *)
Definition created_channels (tr : list event) : list ThreadSafeFunction :=
  flat_map (fun e => match e with EvTsfNew _ (Some t) => [t] | _ => [] end) tr.

(** N-API counts the threads that use a thread-safe function, and the
    module's comments say how: the count starts at the "initial thread count"
    passed to [New] (line 500), the function is finalised "when thread count
    reaches 0" (line 502), [Acquire] adds a user whose share is "decremented
    automatically on thread exit or manual Release()" (line 513), and
    [Release] is to "decrement thread count, triggers finalizer when 0"
    (line 573).  A [Release] that does not return [napi_ok] has released
    nothing. *)
Definition initial_thread_count : Z := 1.

Definition thread_step (t : ThreadSafeFunction) (n : Z) (e : event) : Z :=
  match e with
  | EvTsfNew _ (Some t') => if Pos.eqb t' t then initial_thread_count else n
  | EvTsfAcquire t' => if Pos.eqb t' t then n + 1 else n
  | EvTsfRelease t' status =>
      if Pos.eqb t' t && (status =? napi_ok) then n - 1 else n
  | _ => n
  end.

(** The thread count of channel [t] after a trace that starts without it:
    0 means that the channel does not exist (it was never created, or it has
    been finalised). *)
Definition thread_count (t : ThreadSafeFunction) (tr : list event) : Z :=
  fold_left (thread_step t) tr 0.

(** ** Device registry (lines 24-163) *)

(** What the HAL answers to the property queries of the module.  A
    [CFStringRef] is [None] when null and otherwise carries the UTF-8 text
    [CFStringGetCString] produces for it (the empty string when the
    conversion fails). *)
Record hal := {
  hal_devices_size : OSStatus * Z;
  hal_devices : OSStatus * list AudioDeviceID;
  hal_device_name : AudioDeviceID -> OSStatus * option string;
  hal_device_uid : AudioDeviceID -> OSStatus * option string
}.

Definition ConvertCFString (cfStr : option string) : string :=
  match cfStr with
  | None => EmptyString
  | Some s => s
  end.

(** [std::vector<AudioDeviceID> deviceIDs(deviceCount)] after the HAL has
    written its answer into it. *)
Definition deviceIDs_vector (deviceCount : Z) (answer : list AudioDeviceID)
    : list AudioDeviceID :=
  take (Z.to_nat deviceCount) (answer ++ replicate (Z.to_nat deviceCount) 0).

(** The loop of lines 59-80. *)
Fixpoint find_device_uid (h : hal) (uid : string) (deviceIDs : list AudioDeviceID)
    (tr : list event) : OSStatus * AudioDeviceID * list event :=
  match deviceIDs with
  | [] => (kAudioHardwareBadDeviceError, kAudioDeviceUnknown, tr)
  | d :: rest =>
      let '(status, deviceUIDRef) := hal_device_uid h d in
      let tr := tr ++ [EvGetDeviceUID d] in
      if (status =? noErr) && bool_decide (is_Some deviceUIDRef)
      then if String.eqb (ConvertCFString deviceUIDRef) uid
           then (noErr, d, tr)
           else find_device_uid h uid rest tr
      else find_device_uid h uid rest tr
  end.

(** Returns the status and the value left in the [deviceID] out-parameter. *)
Definition GetAudioDeviceIDFromUID (h : hal) (uid : string)
    : OSStatus * AudioDeviceID * list event :=
  let '(status, dataSize) := hal_devices_size h in
  if negb (status =? noErr) || (dataSize =? 0)
  then (status, kAudioDeviceUnknown, [EvGetDevicesSize])
  else
    let deviceCount := dataSize / sizeof_AudioDeviceID in
    let '(status, answer) := hal_devices h in
    if negb (status =? noErr)
    then (status, kAudioDeviceUnknown, [EvGetDevicesSize; EvGetDevices])
    else find_device_uid h uid (deviceIDs_vector deviceCount answer)
                         [EvGetDevicesSize; EvGetDevices].

(** ** JavaScript values and results *)

#[warnings="-register-all"] Inductive napi_value :=
  | JsUndefined
  | JsNull
  | JsBoolean (b : bool)
  | JsNumber (n : Z)
  | JsString (s : string)
  | JsFunction (f : positive)
  | JsObject (fields : list (string * string))
  | JsArray (items : list napi_value).

Definition IsString (v : napi_value) : bool :=
  match v with JsString _ => true | _ => false end.

Definition IsFunction (v : napi_value) : bool :=
  match v with JsFunction _ => true | _ => false end.

Definition Utf8Value (v : napi_value) : string :=
  match v with JsString s => s | _ => EmptyString end.

(** [info[i]]: an index past the argument count reads as [undefined]. *)
Definition info_at (info : list napi_value) (i : nat) : napi_value :=
  default JsUndefined (info !! i).

(** The exceptions the module throws, one constructor per message. *)
Inductive js_error :=
  | TypeError_ExpectedArguments
  | Error_CaptureInProgress
  | Error_TsfExists
  | Error_DeviceNotFound (uid : string)
  | Error_NoComponent
  | Error_CreateUnit (status : OSStatus)
  | Error_EnableInput (status : OSStatus)
  | Error_SetDevice (status : OSStatus)
  | Error_SetStreamFormat (status : OSStatus)
  | Error_SetInputCallback (status : OSStatus)
  | Error_Initialize (status : OSStatus)
  | Error_CreateTsf
  | Error_StartUnit (status : OSStatus)
  | Error_DeviceListSize (status : OSStatus)
  | Error_DeviceList (status : OSStatus).

Inductive js_result :=
  | Returned (v : napi_value)
  | Thrown (e : js_error).

(** The loop of lines 116-160: devices whose name or UID cannot be read are
    skipped. *)
Fixpoint list_device_objects (h : hal) (deviceIDs : list AudioDeviceID)
    : list napi_value * list event :=
  match deviceIDs with
  | [] => ([], [])
  | d :: rest =>
      let '(objs, tr) := list_device_objects h rest in
      let '(status, deviceNameRef) := hal_device_name h d in
      if negb (status =? noErr) || negb (bool_decide (is_Some deviceNameRef))
      then (objs, EvGetDeviceName d :: tr)
      else
        let '(status, deviceUIDRef) := hal_device_uid h d in
        if negb (status =? noErr) || negb (bool_decide (is_Some deviceUIDRef))
        then (objs, EvGetDeviceName d :: EvGetDeviceUID d :: tr)
        else
          let deviceObj :=
            JsObject [("id"%string, ConvertCFString deviceUIDRef);
                      ("name"%string, ConvertCFString deviceNameRef)] in
          (deviceObj :: objs, EvGetDeviceName d :: EvGetDeviceUID d :: tr)
  end.

Definition ListDevices (h : hal) : js_result * list event :=
  let '(status, dataSize) := hal_devices_size h in
  if negb (status =? noErr) || (dataSize =? 0)
  then (Thrown (Error_DeviceListSize status), [EvGetDevicesSize])
  else
    let deviceCount := dataSize / sizeof_AudioDeviceID in
    let '(status, answer) := hal_devices h in
    if negb (status =? noErr)
    then (Thrown (Error_DeviceList status), [EvGetDevicesSize; EvGetDevices])
    else
      let '(objs, tr) := list_device_objects h (deviceIDs_vector deviceCount answer) in
      (Returned (JsArray objs), EvGetDevicesSize :: EvGetDevices :: tr).

(** ** Capture session (lines 11-16, 336-588) *)

Record globals := {
  g_isCapturing : bool;
  g_audioUnit : option AudioUnit;
  g_targetDeviceID : AudioDeviceID;
  g_tsf : option ThreadSafeFunction
}.

Definition initial_globals : globals :=
  {| g_isCapturing := false; g_audioUnit := None;
     g_targetDeviceID := kAudioDeviceUnknown; g_tsf := None |}.

Definition set_isCapturing (b : bool) (g : globals) : globals :=
  {| g_isCapturing := b; g_audioUnit := g_audioUnit g;
     g_targetDeviceID := g_targetDeviceID g; g_tsf := g_tsf g |}.

Definition set_audioUnit (u : option AudioUnit) (g : globals) : globals :=
  {| g_isCapturing := g_isCapturing g; g_audioUnit := u;
     g_targetDeviceID := g_targetDeviceID g; g_tsf := g_tsf g |}.

Definition set_targetDeviceID (d : AudioDeviceID) (g : globals) : globals :=
  {| g_isCapturing := g_isCapturing g; g_audioUnit := g_audioUnit g;
     g_targetDeviceID := d; g_tsf := g_tsf g |}.

Definition set_tsf (t : option ThreadSafeFunction) (g : globals) : globals :=
  {| g_isCapturing := g_isCapturing g; g_audioUnit := g_audioUnit g;
     g_targetDeviceID := g_targetDeviceID g; g_tsf := t |}.

(** The session is idle: nothing is captured and no handle is held. *)
Definition idle (g : globals) : Prop :=
  g_isCapturing g = false /\ g_audioUnit g = None /\ g_tsf g = None.

(** Outcomes of the platform calls of one [StartCapture].
    [se_instance_new] is the status of [AudioComponentInstanceNew] together
    with the value [g_audioUnit] holds when it returns. *)
Record start_env := {
  se_hal : hal;
  se_find_component : bool;
  se_instance_new : OSStatus * option AudioUnit;
  se_enable_input : OSStatus;
  se_disable_output : OSStatus;
  se_set_device : OSStatus;
  se_set_format : OSStatus;
  se_get_format : OSStatus;
  se_set_callback : OSStatus;
  se_initialize : OSStatus;
  se_tsf_new : option ThreadSafeFunction;
  se_start : OSStatus;
  se_tsf_release : napi_status;
  se_uninitialize : OSStatus;
  se_dispose : OSStatus
}.

(** The argument check of line 340. *)
Definition arguments_ok (info : list napi_value) : bool :=
  negb ((length info <? 2)%nat
        || negb (IsString (info_at info 0))
        || negb (IsFunction (info_at info 1))).

Definition AsFunction (v : napi_value) : positive :=
  match v with JsFunction f => f | _ => 1%positive end.

Definition StartCapture (info : list napi_value) (env : start_env) (g : globals)
    : js_result * globals * list event :=
  if (length info <? 2)%nat
     || negb (IsString (info_at info 0))
     || negb (IsFunction (info_at info 1))
  then (Thrown TypeError_ExpectedArguments, g, [])
  else
  let targetUID := Utf8Value (info_at info 0) in
  let jsDataCallback := AsFunction (info_at info 1) in
  if g_isCapturing g then (Thrown Error_CaptureInProgress, g, []) else
  if bool_decide (is_Some (g_tsf g)) then (Thrown Error_TsfExists, g, []) else
  (* 1. Find the target device ID *)
  let '(status, deviceID, tr) := GetAudioDeviceIDFromUID (se_hal env) targetUID in
  let g := set_targetDeviceID deviceID g in
  if negb (status =? noErr) || (g_targetDeviceID g =? kAudioDeviceUnknown)
  then (Thrown (Error_DeviceNotFound targetUID), g, tr)
  else
  (* CoreAudio setup *)
  let tr := tr ++ [EvFindComponent] in
  if negb (se_find_component env) then (Thrown Error_NoComponent, g, tr) else
  let '(status, out) := se_instance_new env in
  let tr := tr ++ [EvInstanceNew status out] in
  let g := set_audioUnit out g in
  match (if negb (status =? noErr) then None else g_audioUnit g) with
  | None => (Thrown (Error_CreateUnit status), set_audioUnit None g, tr)
  | Some u =>
  (* Enable input (bus 1), disable output (bus 0) *)
  let status := se_enable_input env in
  let tr := tr ++ [EvEnableInput u status] in
  if negb (status =? noErr)
  then (Thrown (Error_EnableInput status), set_audioUnit None g,
        tr ++ [EvDispose u (se_dispose env)])
  else
  let tr := tr ++ [EvDisableOutput u (se_disable_output env)] in
  (* Set the target device *)
  let status := se_set_device env in
  let tr := tr ++ [EvSetCurrentDevice u (g_targetDeviceID g) status] in
  if negb (status =? noErr)
  then (Thrown (Error_SetDevice status), set_audioUnit None g,
        tr ++ [EvDispose u (se_dispose env)])
  else
  (* Set the format on the output scope of the input bus *)
  let status := se_set_format env in
  let tr := tr ++ [EvSetStreamFormat u desiredFormat status] in
  if negb (status =? noErr)
  then (Thrown (Error_SetStreamFormat status), set_audioUnit None g,
        tr ++ [EvDispose u (se_dispose env)])
  else
  let tr := tr ++ [EvGetStreamFormat u (se_get_format env)] in
  (* Set the input callback *)
  let status := se_set_callback env in
  let tr := tr ++ [EvSetInputCallback u true status] in
  if negb (status =? noErr)
  then (Thrown (Error_SetInputCallback status), set_audioUnit None g,
        tr ++ [EvDispose u (se_dispose env)])
  else
  (* Initialize the Audio Unit *)
  let status := se_initialize env in
  let tr := tr ++ [EvInitialize u status] in
  if negb (status =? noErr)
  then (Thrown (Error_Initialize status), set_audioUnit None g,
        tr ++ [EvDispose u (se_dispose env)])
  else
  (* Setup ThreadSafeFunction *)
  let tr := tr ++ [EvTsfNew jsDataCallback (se_tsf_new env)] in
  let g := set_tsf (se_tsf_new env) g in
  match g_tsf g with
  | None => (Thrown Error_CreateTsf, set_audioUnit None g,
             tr ++ [EvUninitialize u (se_uninitialize env); EvDispose u (se_dispose env)])
  | Some t =>
  let tr := tr ++ [EvTsfAcquire t] in
  (* Start Audio Unit *)
  let status := se_start env in
  let tr := tr ++ [EvStart u status] in
  if negb (status =? noErr)
  then (Thrown (Error_StartUnit status), set_audioUnit None (set_tsf None g),
        tr ++ [EvTsfRelease t (se_tsf_release env);
               EvUninitialize u (se_uninitialize env);
               EvDispose u (se_dispose env)])
  else (Returned (JsBoolean true), set_isCapturing true g, tr)
  end
  end.

(** Outcomes of the platform calls of one [StopCapture]. *)
Record stop_env := {
  st_stop : OSStatus;
  st_uninitialize : OSStatus;
  st_clear_callback : OSStatus;
  st_dispose : OSStatus;
  st_tsf_release : napi_status
}.

Definition StopCapture (env : stop_env) (g : globals)
    : js_result * globals * list event :=
  if negb (g_isCapturing g)
  then
    match g_tsf g with
    | Some t => (Returned (JsBoolean true), set_tsf None g,
                 [EvTsfRelease t (st_tsf_release env)])
    | None => (Returned (JsBoolean true), g, [])
    end
  else
    (* Teardown CoreAudio (if AU exists) *)
    let '(g, tr) :=
      match g_audioUnit g with
      | Some u => (set_audioUnit None g,
                   [EvStop u (st_stop env);
                    EvUninitialize u (st_uninitialize env);
                    EvSetInputCallback u false (st_clear_callback env);
                    EvDispose u (st_dispose env)])
      | None => (g, [])
      end in
    (* Release ThreadSafeFunction *)
    let '(g, tr) :=
      match g_tsf g with
      | Some t => (set_tsf None g, tr ++ [EvTsfRelease t (st_tsf_release env)])
      | None => (g, tr)
      end in
    (* Reset state *)
    let g := set_targetDeviceID kAudioDeviceUnknown g in
    let g := set_isCapturing false g in
    (Returned (JsBoolean true), g, tr).

(** ** Render callback (lines 165-333) *)

Record AudioBuffer := {
  mNumberChannels : Z;
  mDataByteSize : Z;
  mData : option ptr
}.

(** [malloc(sizeof(AudioBufferList))] has room for exactly one
    [AudioBuffer]: [mBuffers] is that one-slot array, whatever
    [mNumberBuffers] says. *)
Record AudioBufferList := {
  mNumberBuffers : Z;
  mBuffers : list AudioBuffer
}.

(** What one invocation of the callback does, in order.  The two guards
    are recorded as well, so that their position can be stated. *)
Inductive action :=
  | ActCheckBus
  | ActCheckSession
  | ActMallocList (p : option ptr)
  | ActMallocData (size : Z) (p : option ptr)
  | ActFree (p : ptr)
  | ActRender (u : AudioUnit) (frames : Z) (status : OSStatus)
  | ActNewAudioData (ok : bool)
  | ActResize (n : Z) (ok : bool)
  | ActDeleteAudioData
  | ActEnqueue (t : ThreadSafeFunction) (frame : list float32) (status : napi_status).

Definition is_guard (a : action) : bool :=
  match a with ActCheckBus | ActCheckSession => true | _ => false end.

Definition is_enqueue (a : action) : bool :=
  match a with ActEnqueue _ _ _ => true | _ => false end.

(** How many times a trace frees the block at [p]. *)
Definition frees_of (p : ptr) (tr : list action) : nat :=
  length (List.filter (fun a => match a with ActFree q => Pos.eqb q p | _ => false end) tr).

(** How an invocation ends: it returns a status, or [std::bad_alloc] leaves
    the callback uncaught, or it runs into undefined behaviour (a read past
    an allocation). *)
Inductive cb_result :=
  | CbReturn (status : OSStatus)
  | CbUncaught
  | CbUndefined.

(** Outcomes of the platform calls of one invocation.  [re_rendered_count]
    and [re_rendered_buffer] are the contents of [*localBufferList] when
    [AudioUnitRender] returns, [re_samples] the [int16_t] view of the memory
    its [mData] then points to. *)
Record render_env := {
  re_malloc_list : option ptr;
  re_malloc_data : option ptr;
  re_render : OSStatus;
  re_rendered_count : Z;
  re_rendered_buffer : AudioBuffer;
  re_samples : list Z;
  re_new_data : bool;
  re_resize : bool;
  re_enqueue : napi_status
}.

Definition AllocateAudioBufferList (numChannels totalDataByteSize : Z) (env : render_env)
    : option (ptr * AudioBufferList) * list action :=
  match re_malloc_list env with
  | None => (None, [ActMallocList None])
  | Some bufferList =>
      match re_malloc_data env with
      | None => (None, [ActMallocList (Some bufferList);
                        ActMallocData totalDataByteSize None;
                        ActFree bufferList])
      | Some data =>
          (Some (bufferList,
                 {| mNumberBuffers := 1;
                    mBuffers := [ {| mNumberChannels := numChannels;
                                     mDataByteSize := totalDataByteSize;
                                     mData := Some data |} ] |}),
           [ActMallocList (Some bufferList);
            ActMallocData totalDataByteSize (Some data)])
      end
  end.

(** The loop of lines 186-190, from index [i] for [n] more rounds; reading
    [mBuffers[i]] past the one slot is undefined. *)
Fixpoint free_buffers (bufs : list AudioBuffer) (i n : nat) : option (list action) :=
  match n with
  | O => Some []
  | S n' =>
      match bufs !! i with
      | None => None
      | Some b =>
          match free_buffers bufs (S i) n' with
          | None => None
          | Some rest =>
              Some (match mData b with Some p => ActFree p :: rest | None => rest end)
          end
      end
  end.

Definition DeallocateAudioBufferList (bufferList : option (ptr * AudioBufferList))
    : option (list action) :=
  match bufferList with
  | None => Some []
  | Some (p, l) =>
      match free_buffers (mBuffers l) 0 (Z.to_nat (mNumberBuffers l)) with
      | None => None
      | Some frees => Some (frees ++ [ActFree p])
      end
  end.

Definition bytesPerFrame : Z := wrap32 (2 * 2).

(** Line 221: [UInt32 totalDataByteSize = inNumberFrames * bytesPerFrame]. *)
Definition totalDataByteSize (inNumberFrames : Z) : Z :=
  wrap32 (inNumberFrames * bytesPerFrame).

(** Ends an invocation after [DeallocateAudioBufferList]. *)
Definition finish (tr : list action) (dealloc : option (list action)) (status : OSStatus)
    : cb_result * list action :=
  match dealloc with
  | None => (CbUndefined, tr)
  | Some frees => (CbReturn status, tr ++ frees)
  end.

Definition AudioInputCallback (inRefCon : AudioUnit) (inBusNumber inNumberFrames : Z)
    (env : render_env) (g : globals) : cb_result * list action :=
  if negb (inBusNumber =? 1) then (CbReturn noErr, [ActCheckBus]) else
  match (if g_isCapturing g then g_tsf g else None) with
  | None => (CbReturn noErr, [ActCheckBus; ActCheckSession])
  | Some tsf =>
  let tr := [ActCheckBus; ActCheckSession] in
  (* Allocate our own buffer list (for Interleaved Int16 Stereo) *)
  let numChannels := 2 in
  let '(alloc, allocs) :=
    AllocateAudioBufferList numChannels (totalDataByteSize inNumberFrames) env in
  let tr := tr ++ allocs in
  match alloc with
  | None => (CbReturn (-1), tr)
  | Some (p, _) =>
  (* Render into our local buffer *)
  let status := re_render env in
  let localBufferList :=
    {| mNumberBuffers := re_rendered_count env;
       mBuffers := [re_rendered_buffer env] |} in
  let buffer0 := re_rendered_buffer env in
  let tr := tr ++ [ActRender inRefCon inNumberFrames status] in
  if negb (status =? noErr)
  then finish tr (DeallocateAudioBufferList (Some (p, localBufferList))) status
  else
  (* Process data from localBufferList (Interleaved Int16) *)
  if negb (mNumberBuffers localBufferList =? 1) || negb (bool_decide (is_Some (mData buffer0)))
  then finish tr (DeallocateAudioBufferList (Some (p, localBufferList))) (-1)
  else
  if mDataByteSize buffer0 <? totalDataByteSize inNumberFrames
  then finish tr (DeallocateAudioBufferList (Some (p, localBufferList))) (-1)
  else
  if negb (re_new_data env) then (CbUncaught, tr ++ [ActNewAudioData false]) else
  let tr := tr ++ [ActNewAudioData true] in
  if negb (re_resize env)
  then finish (tr ++ [ActResize inNumberFrames false; ActDeleteAudioData])
              (DeallocateAudioBufferList (Some (p, localBufferList))) (-1)
  else
  let tr := tr ++ [ActResize inNumberFrames true] in
  match convert_frames (re_samples env) inNumberFrames with
  | None => (CbUndefined, tr)
  | Some data =>
  (* Send data via ThreadSafeFunction *)
  let tsf_status := re_enqueue env in
  let tr := tr ++ [ActEnqueue tsf data tsf_status] in
  let tr := if negb (tsf_status =? napi_ok) then tr ++ [ActDeleteAudioData] else tr in
  (* Cleanup locally allocated buffer *)
  finish tr (DeallocateAudioBufferList (Some (p, localBufferList))) noErr
  end
  end
  end.

(** ** Histories of the module *)

Inductive operation :=
  | OpListDevices (h : hal)
  | OpStartCapture (info : list napi_value) (env : start_env)
  | OpStopCapture (env : stop_env)
  | OpRenderCallback (inRefCon : AudioUnit) (inBusNumber inNumberFrames : Z)
                     (env : render_env).

(** [ListDevices] and the callback assign to no global. *)
Definition run_op (op : operation) (g : globals) : globals :=
  match op with
  | OpListDevices _ => g
  | OpStartCapture info env => snd (fst (StartCapture info env g))
  | OpStopCapture env => snd (fst (StopCapture env g))
  | OpRenderCallback _ _ _ _ => g
  end.

Definition run_ops (ops : list operation) (g : globals) : globals :=
  fold_left (fun g op => run_op op g) ops g.

(** The states the module can be in between two operations. *)
Definition reachable (g : globals) : Prop :=
  exists ops, g = run_ops ops initial_globals.

(** ** Notions used to state the properties *)

(** Read-only property queries to the HAL. *)
Definition is_query (e : event) : bool :=
  match e with
  | EvGetDevicesSize | EvGetDevices | EvGetDeviceName _ | EvGetDeviceUID _ => true
  | _ => false
  end.

(** Every fallible configuration step of [StartCapture] succeeds: the
    device resolves, the component is found, the unit is created, input is
    enabled, device, format and callback are set, the unit initialises, the
    delivery channel is created and the unit starts.  (Disabling output and
    reading the format back only produce warnings.) *)
Definition configuration_succeeds (info : list napi_value) (env : start_env) : bool :=
  let '(status, deviceID, _) :=
    GetAudioDeviceIDFromUID (se_hal env) (Utf8Value (info_at info 0)) in
  (status =? noErr) && negb (deviceID =? kAudioDeviceUnknown)
  && se_find_component env
  && (fst (se_instance_new env) =? noErr)
  && bool_decide (is_Some (snd (se_instance_new env)))
  && (se_enable_input env =? noErr)
  && (se_set_device env =? noErr)
  && (se_set_format env =? noErr)
  && (se_set_callback env =? noErr)
  && (se_initialize env =? noErr)
  && bool_decide (is_Some (se_tsf_new env))
  && (se_start env =? noErr).

(** The invariant of the session globals: the unit handle and the delivery
    channel exist exactly while the capturing flag is set. *)
Definition session_invariant (g : globals) : Prop :=
  (g_isCapturing g = true -> is_Some (g_audioUnit g) /\ is_Some (g_tsf g))
  /\ (g_isCapturing g = false -> g_audioUnit g = None /\ g_tsf g = None).

(** ** Concrete environments for the examples *)

Definition demo_unit : AudioUnit := 7%positive.
Definition demo_channel : ThreadSafeFunction := 9%positive.
Definition demo_callback : positive := 1%positive.

Definition demo_hal : hal :=
  {| hal_devices_size := (noErr, 8);
     hal_devices := (noErr, [41; 42]);
     hal_device_name := fun d => (noErr, Some (if d =? 42 then "Microphone"%string else "Speaker"%string));
     hal_device_uid := fun d => (noErr, Some (if d =? 42 then "mic"%string else "out"%string)) |}.

Definition demo_start_env : start_env :=
  {| se_hal := demo_hal; se_find_component := true;
     se_instance_new := (noErr, Some demo_unit);
     se_enable_input := noErr; se_disable_output := noErr; se_set_device := noErr;
     se_set_format := noErr; se_get_format := noErr; se_set_callback := noErr;
     se_initialize := noErr; se_tsf_new := Some demo_channel; se_start := noErr;
     se_tsf_release := napi_ok; se_uninitialize := noErr; se_dispose := noErr |}.

(** As [demo_start_env], but [AudioComponentInstanceNew] fails. *)
Definition demo_start_env_no_unit : start_env :=
  {| se_hal := demo_hal; se_find_component := true;
     se_instance_new := (-1, None);
     se_enable_input := noErr; se_disable_output := noErr; se_set_device := noErr;
     se_set_format := noErr; se_get_format := noErr; se_set_callback := noErr;
     se_initialize := noErr; se_tsf_new := Some demo_channel; se_start := noErr;
     se_tsf_release := napi_ok; se_uninitialize := noErr; se_dispose := noErr |}.

(** As [demo_start_env], but [AudioOutputUnitStart] fails. *)
Definition demo_start_env_start_fails : start_env :=
  {| se_hal := demo_hal; se_find_component := true;
     se_instance_new := (noErr, Some demo_unit);
     se_enable_input := noErr; se_disable_output := noErr; se_set_device := noErr;
     se_set_format := noErr; se_get_format := noErr; se_set_callback := noErr;
     se_initialize := noErr; se_tsf_new := Some demo_channel; se_start := -1;
     se_tsf_release := napi_ok; se_uninitialize := noErr; se_dispose := noErr |}.

Definition demo_stop_env : stop_env :=
  {| st_stop := noErr; st_uninitialize := noErr; st_clear_callback := noErr;
     st_dispose := noErr; st_tsf_release := napi_ok |}.

Definition demo_info : list napi_value := [JsString "mic"; JsFunction demo_callback].

(** The globals after [StartCapture demo_info demo_start_env] from the
    initial state. *)
Definition demo_capturing : globals :=
  {| g_isCapturing := true; g_audioUnit := Some demo_unit;
     g_targetDeviceID := 42; g_tsf := Some demo_channel |}.

Definition demo_list_ptr : ptr := 100%positive.
Definition demo_data_ptr : ptr := 200%positive.

(** A render of two frames that fills the buffer as requested. *)
Definition demo_render_env : render_env :=
  {| re_malloc_list := Some demo_list_ptr;
     re_malloc_data := Some demo_data_ptr;
     re_render := noErr;
     re_rendered_count := 1;
     re_rendered_buffer :=
       {| mNumberChannels := 2; mDataByteSize := 8; mData := Some demo_data_ptr |};
     re_samples := [0; 0; 32767; -32768];
     re_new_data := true;
     re_resize := true;
     re_enqueue := napi_ok |}.


(** As [demo_render_env], but the render leaves [mBuffers[0].mData] null,
    the condition line 258 tests for. *)
Definition demo_render_env_null_data : render_env :=
  {| re_malloc_list := Some demo_list_ptr;
     re_malloc_data := Some demo_data_ptr;
     re_render := noErr;
     re_rendered_count := 1;
     re_rendered_buffer :=
       {| mNumberChannels := 2; mDataByteSize := 8; mData := None |};
     re_samples := [0; 0; 32767; -32768];
     re_new_data := true;
     re_resize := true;
     re_enqueue := napi_ok |}.

(** As [demo_render_env], but the render leaves [mNumberBuffers] at zero. *)
Definition demo_render_env_no_buffer : render_env :=
  {| re_malloc_list := Some demo_list_ptr;
     re_malloc_data := Some demo_data_ptr;
     re_render := noErr;
     re_rendered_count := 0;
     re_rendered_buffer :=
       {| mNumberChannels := 2; mDataByteSize := 8; mData := Some demo_data_ptr |};
     re_samples := [0; 0; 32767; -32768];
     re_new_data := true;
     re_resize := true;
     re_enqueue := napi_ok |}.


(** As [demo_render_env], but [new AudioData()] throws [std::bad_alloc]. *)
Definition demo_render_env_new_fails : render_env :=
  {| re_malloc_list := Some demo_list_ptr;
     re_malloc_data := Some demo_data_ptr;
     re_render := noErr;
     re_rendered_count := 1;
     re_rendered_buffer :=
       {| mNumberChannels := 2; mDataByteSize := 8; mData := Some demo_data_ptr |};
     re_samples := [0; 0; 32767; -32768];
     re_new_data := false;
     re_resize := true;
     re_enqueue := napi_ok |}.

(** A render asked for 2^30 frames: the byte size wraps to 0, the block is
    empty and the render reports 0 bytes. *)
Definition demo_render_env_wrapped : render_env :=
  {| re_malloc_list := Some demo_list_ptr;
     re_malloc_data := Some demo_data_ptr;
     re_render := noErr;
     re_rendered_count := 1;
     re_rendered_buffer :=
       {| mNumberChannels := 2; mDataByteSize := 0; mData := Some demo_data_ptr |};
     re_samples := [];
     re_new_data := true;
     re_resize := true;
     re_enqueue := napi_ok |}.

(** ** Further notions: device registry *)

(** The test of lines 69-72 on one device: its UID can be read, is not
    null, and converts to exactly [uid]. *)
Definition uid_matches (h : hal) (uid : string) (d : AudioDeviceID) : bool :=
  let '(status, deviceUIDRef) := hal_device_uid h d in
  (status =? noErr) && bool_decide (is_Some deviceUIDRef)
  && String.eqb (ConvertCFString deviceUIDRef) uid.

(** The object [ListDevices] builds for one device, if it builds one
    (lines 128-159). *)
Definition device_object (h : hal) (d : AudioDeviceID) : option napi_value :=
  let '(status, deviceNameRef) := hal_device_name h d in
  if negb (status =? noErr) || negb (bool_decide (is_Some deviceNameRef)) then None
  else
    let '(status, deviceUIDRef) := hal_device_uid h d in
    if negb (status =? noErr) || negb (bool_decide (is_Some deviceUIDRef)) then None
    else Some (JsObject [("id"%string, ConvertCFString deviceUIDRef);
                         ("name"%string, ConvertCFString deviceNameRef)]).

(** A HAL that reports an empty device list. *)
Definition demo_hal_empty : hal :=
  {| hal_devices_size := (noErr, 0);
     hal_devices := (noErr, []);
     hal_device_name := fun _ => (noErr, None);
     hal_device_uid := fun _ => (noErr, None) |}.

(** As [demo_start_env], against the HAL with no device. *)
Definition demo_start_env_no_device : start_env :=
  {| se_hal := demo_hal_empty; se_find_component := true;
     se_instance_new := (noErr, Some demo_unit);
     se_enable_input := noErr; se_disable_output := noErr; se_set_device := noErr;
     se_set_format := noErr; se_get_format := noErr; se_set_callback := noErr;
     se_initialize := noErr; se_tsf_new := Some demo_channel; se_start := noErr;
     se_tsf_release := napi_ok; se_uninitialize := noErr; se_dispose := noErr |}.

(** ** Further notions: handles over a history *)

(** A call in a history: made by an exported operation, or by an
    invocation of the render callback. *)
Inductive call :=
  | OpCall (e : event)
  | CbCall (a : action).

Definition op_calls (op : operation) (g : globals) : list call :=
  match op with
  | OpListDevices h => map OpCall (ListDevices h).2
  | OpStartCapture info env => map OpCall (StartCapture info env g).2
  | OpStopCapture env => map OpCall (StopCapture env g).2
  | OpRenderCallback inRefCon inBusNumber inNumberFrames env =>
      map CbCall (AudioInputCallback inRefCon inBusNumber inNumberFrames env g).2
  end.

Fixpoint history_calls (ops : list operation) (g : globals) : list call :=
  match ops with
  | [] => []
  | op :: ops => op_calls op g ++ history_calls ops (run_op op g)
  end.

(** What a monitor of handle discipline keeps track of: the hardware unit
    the module holds (created, and not yet passed to
    [AudioComponentInstanceDispose]; whatever that call returns, the module
    gives the unit up), and the thread count of every delivery channel. *)
Record resources := {
  held_unit : option AudioUnit;
  threads : ThreadSafeFunction -> Z
}.

Definition no_resources : resources :=
  {| held_unit := None; threads := fun _ => 0 |}.

Definition is_handle (o : option positive) (h : positive) : bool :=
  match o with Some x => Pos.eqb x h | None => false end.

(** The unit a call operates on, for the calls that neither create nor
    dispose of it. *)
Definition uses_unit (e : event) : option AudioUnit :=
  match e with
  | EvEnableInput u _ | EvDisableOutput u _ | EvSetCurrentDevice u _ _
  | EvSetStreamFormat u _ _ | EvGetStreamFormat u _ | EvSetInputCallback u _ _
  | EvInitialize u _ | EvUninitialize u _ | EvStart u _ | EvStop u _ => Some u
  | _ => None
  end.

(** One step of the monitor.  It gets stuck ([None]) when a unit is created
    while another is held, when a call operates on, or disposes of, a unit
    that is not the held one (the callback's [AudioUnitRender] included), and
    when [Acquire], [Release] or the callback's [NonBlockingCall] addresses a
    channel that does not exist (thread count 0). *)
Definition monitor_step (r : resources) (c : call) : option resources :=
  match c with
  | OpCall e =>
      let counted :=
        {| held_unit := held_unit r;
           threads := fun t => thread_step t (threads r t) e |} in
      match e with
      | EvInstanceNew status (Some u) =>
          if status =? noErr
          then match held_unit r with
               | None => Some {| held_unit := Some u; threads := threads r |}
               | Some _ => None
               end
          else Some r
      | EvDispose u _ =>
          if is_handle (held_unit r) u
          then Some {| held_unit := None; threads := threads r |}
          else None
      | EvTsfNew _ _ => Some counted
      | EvTsfAcquire t | EvTsfRelease t _ =>
          if 1 <=? threads r t then Some counted else None
      | _ =>
          match uses_unit e with
          | Some u => if is_handle (held_unit r) u then Some r else None
          | None => Some r
          end
      end
  | CbCall (ActRender u _ _) => if is_handle (held_unit r) u then Some r else None
  | CbCall (ActEnqueue t _ _) => if 1 <=? threads r t then Some r else None
  | CbCall _ => Some r
  end.

Fixpoint monitor (r : resources) (tr : list call) : option resources :=
  match tr with
  | [] => Some r
  | c :: tr =>
      match monitor_step r c with
      | Some r' => monitor r' tr
      | None => None
      end
  end.

(** The unit that is running: [AudioOutputUnitStart] has succeeded on it
    and it has not been passed to [AudioComponentInstanceDispose] since. *)
Definition running_step (run : option AudioUnit) (c : call) : option AudioUnit :=
  match c with
  | OpCall (EvStart u status) => if status =? noErr then Some u else run
  | OpCall (EvDispose u _) => if is_handle run u then None else run
  | _ => run
  end.

(** The histories the platform produces: it invokes the input callback
    only for a running unit, and with the [inputProcRefCon] registered for
    it, which is the unit itself (line 474). *)
Fixpoint callbacks_while_running (ops : list operation) (g : globals)
    (run : option AudioUnit) : bool :=
  match ops with
  | [] => true
  | op :: ops =>
      match op with
      | OpRenderCallback inRefCon _ _ _ => is_handle run inRefCon
      | _ => true
      end
      && callbacks_while_running ops (run_op op g)
                                 (fold_left running_step (op_calls op g) run)
  end.

(** How the monitor and the platform stand to the globals between two
    operations: the unit held is the one in [g_audioUnit], a unit runs only
    while the session captures with it, and the channel in [g_tsf] has been
    created and acquired. *)
Definition consistent (r : resources) (run : option AudioUnit) (g : globals) : Prop :=
  held_unit r = g_audioUnit g
  /\ (forall u, run = Some u -> g_isCapturing g = true /\ g_audioUnit g = Some u)
  /\ (forall t, g_tsf g = Some t -> threads r t = 2).

(** What one operation preserves: the monitor accepts its calls, the
    result is consistent again, no channel that exists is finalised, and a
    channel it creates exists afterwards. *)
Definition step_ok (r : resources) (run : option AudioUnit) (g : globals)
    (calls : list call) (g' : globals) : Prop :=
  exists r',
    monitor r calls = Some r'
    /\ consistent r' (fold_left running_step calls run) g'
    /\ (forall t, 1 <= threads r t -> 1 <= threads r' t)
    /\ (forall jsCallback t, In (OpCall (EvTsfNew jsCallback (Some t))) calls ->
          1 <= threads r' t).

(** The calls of the callback: it renders on its [inRefCon] and enqueues on
    the channel in [g_tsf]. *)
Definition callback_call_ok (inRefCon : AudioUnit) (g : globals) (a : action) : Prop :=
  match a with
  | ActRender u _ _ => u = inRefCon
  | ActEnqueue t _ _ => g_tsf g = Some t
  | _ => True
  end.

(** ** Further notions: the render callback *)

Definition is_free (a : action) : bool :=
  match a with ActFree _ => true | _ => false end.

Definition enqueues (tr : list action) : nat := length (List.filter is_enqueue tr).

(** A sample that is a number between [-1.0f] and [1.0f]. *)
Definition in_unit_range (x : float32) : bool :=
  negb (is_nan x) && fleb (SFopp fone) x && fleb x fone.

(** Frame objects ([AudioData]) an invocation creates, deletes itself, and
    hands over to the delivery channel (an enqueue that returned
    [napi_ok]). *)
Definition created_frames (tr : list action) : nat :=
  length (List.filter (fun a => match a with ActNewAudioData true => true | _ => false end) tr).

Definition deleted_frames (tr : list action) : nat :=
  length (List.filter (fun a => match a with ActDeleteAudioData => true | _ => false end) tr).

Definition accepted_frames (tr : list action) : list (list float32) :=
  flat_map (fun a => match a with
                     | ActEnqueue _ frame status => if status =? napi_ok then [frame] else []
                     | _ => []
                     end) tr.

(** ** Delivery to the consumer (lines 291-320) *)

(** How a call into the JavaScript engine ends inside the lambda. *)
Inductive js_outcome :=
  | JsReturns
  | JsThrowsNapiError
  | JsThrowsStdException
  | JsThrowsOther.

Record delivery_env := {
  de_array_buffer_new : js_outcome;
  de_call : js_outcome
}.

Inductive delivery_action :=
  | DlvArrayBufferNew (byteLength : Z)
  | DlvMemcpy (payload : list float32) (byteLength : Z)
  | DlvCall (payload : list float32)
  | DlvDelete.

Definition sizeof_float : Z := 4.

(** The lambda passed to [NonBlockingCall], run by the channel with the
    environment (null or not) and the frame (null or not).  The three
    [catch] clauses, the last of them [catch (...)], let no exception out of
    the [try] block; the frame is deleted after it. *)
Definition DeliverFrame (env_non_null : bool) (data : option (list float32))
    (denv : delivery_env) : list delivery_action :=
  match data with
  | Some samples =>
      if env_non_null
      then
        let bufferByteLength := Z.of_nat (length samples) * sizeof_float in
        let tried :=
          match de_array_buffer_new denv with
          | JsReturns =>
              [DlvArrayBufferNew bufferByteLength;
               DlvMemcpy samples bufferByteLength;
               DlvCall samples]
          | _ => [DlvArrayBufferNew bufferByteLength]
          end in
        tried ++ [DlvDelete]
      else [DlvDelete]
  | None => []
  end.

Definition delivery_deletes (tr : list delivery_action) : nat :=
  length (List.filter (fun a => match a with DlvDelete => true | _ => false end) tr).

Definition delivery_calls (tr : list delivery_action) : list (list float32) :=
  flat_map (fun a => match a with DlvCall payload => [payload] | _ => [] end) tr.

Definition is_render (a : action) : bool :=
  match a with ActRender _ _ _ => true | _ => false end.

(** As [demo_render_env], but the data block cannot be allocated. *)
Definition demo_render_env_no_memory : render_env :=
  {| re_malloc_list := Some demo_list_ptr;
     re_malloc_data := None;
     re_render := noErr;
     re_rendered_count := 1;
     re_rendered_buffer :=
       {| mNumberChannels := 2; mDataByteSize := 8; mData := Some demo_data_ptr |};
     re_samples := [];
     re_new_data := true;
     re_resize := true;
     re_enqueue := napi_ok |}.

(** As [demo_render_env], but the render fails with status -50. *)
Definition demo_render_env_render_fails : render_env :=
  {| re_malloc_list := Some demo_list_ptr;
     re_malloc_data := Some demo_data_ptr;
     re_render := -50;
     re_rendered_count := 1;
     re_rendered_buffer :=
       {| mNumberChannels := 2; mDataByteSize := 8; mData := Some demo_data_ptr |};
     re_samples := [0; 0; 32767; -32768];
     re_new_data := true;
     re_resize := true;
     re_enqueue := napi_ok |}.

(** * Facts *)

(** ** Exact binary32 arithmetic on 16-bit samples

    Every intermediate value of [mix_sample] is a dyadic rational with at
    most 17 significant bits, so no operation rounds.  The lemmas below
    establish this from the definitions of [SpecFloat], by following a
    mantissa through the alignment and shift steps of [binary_round]. *)

(** The literals are the correctly rounded binary32 values of 32768, 1/2
    and 1, and are valid binary32 data. *)
Example f32768_literal : binary_normalize prec emax 32768 0 false = f32768.
Proof. reflexivity. Qed.

Example fhalf_literal : binary_normalize prec emax 1 (-1) false = fhalf.
Proof. reflexivity. Qed.

Example fone_literal : binary_normalize prec emax 1 0 false = fone.
Proof. reflexivity. Qed.

Example literals_valid :
  valid_binary prec emax f32768 && valid_binary prec emax fhalf
  && valid_binary prec emax fone = true.
Proof. reflexivity. Qed.

Example mix_sample_extremes :
  mix_sample 32767 32767 = S754_finite false 16776704 (-24)
  /\ mix_sample (-32768) (-32768) = S754_finite true 8388608 (-23)
  /\ mix_sample 32767 (-32768) = S754_finite true 8388608 (-39)
  /\ mix_sample 0 0 = S754_zero false.
Proof. repeat split; vm_compute; reflexivity. Qed.

Lemma shl_spec q k : 0 <= k -> Zpos (shl q k) = Zpos q * 2 ^ k.
Proof.
  intros Hk. destruct k as [|n|n]; simpl shl; [lia| |lia].
  change (Pos.iter xO q n) with (shift_pos n q).
  rewrite shift_pos_correct. apply Z.mul_comm.
Qed.

Lemma digits_iter_xO q n : digits2_pos (Pos.iter xO q n) = (digits2_pos q + n)%positive.
Proof.
  revert q. induction n as [n IH|n IH|]; intros q; simpl.
  - rewrite !IH. lia.
  - rewrite !IH. lia.
  - lia.
Qed.

Lemma digits_shl q k : 0 <= k -> digits (shl q k) = digits q + k.
Proof.
  intros Hk. unfold digits. destruct k as [|n|n]; simpl shl; [lia| |lia].
  rewrite digits_iter_xO. lia.
Qed.

Lemma digits_bounds q : 2 ^ (digits q - 1) <= Zpos q < 2 ^ digits q.
Proof.
  unfold digits. induction q as [q IH|q IH|]; simpl digits2_pos.
  - rewrite Pos2Z.inj_succ.
    replace (Z.succ (Z.pos (digits2_pos q)) - 1) with (Z.succ (Z.pos (digits2_pos q) - 1)) by lia.
    rewrite !Z.pow_succ_r by lia. lia.
  - rewrite Pos2Z.inj_succ.
    replace (Z.succ (Z.pos (digits2_pos q)) - 1) with (Z.succ (Z.pos (digits2_pos q) - 1)) by lia.
    rewrite !Z.pow_succ_r by lia. lia.
  - simpl. lia.
Qed.

Lemma digits_le q n : 0 <= n -> Zpos q < 2 ^ n -> digits q <= n.
Proof.
  intros Hn Hq. destruct (Z.le_gt_cases (digits q) n) as [?|Hgt]; [assumption|].
  pose proof (digits_bounds q) as [Hlo _].
  assert (2 ^ n <= 2 ^ (digits q - 1)) by (apply Z.pow_le_mono_r; lia). lia.
Qed.

Lemma shl_shl q a b : 0 <= a -> 0 <= b -> shl (shl q a) b = shl q (a + b).
Proof.
  intros Ha Hb. apply Pos2Z.inj. rewrite !shl_spec by lia.
  rewrite Z.pow_add_r by lia. ring.
Qed.

Lemma shr_iter_exact n : forall q,
  SpecFloat.iter_pos shr_1 n (exact_record (Pos.iter xO q n)) = exact_record q.
Proof.
  induction n as [n IH|n IH|]; intros q.
  - change (SpecFloat.iter_pos shr_1 n (SpecFloat.iter_pos shr_1 n
              (exact_record (Pos.iter xO (Pos.iter xO q n) n))) = exact_record q).
    rewrite !IH. reflexivity.
  - change (SpecFloat.iter_pos shr_1 n (SpecFloat.iter_pos shr_1 n
              (exact_record (Pos.iter xO (Pos.iter xO q n) n))) = exact_record q).
    rewrite !IH. reflexivity.
  - reflexivity.
Qed.

Lemma fexp_normal x : -125 <= x -> fexp prec emax x = x - prec.
Proof. intros Hx. unfold fexp, emin, prec, emax. lia. Qed.

Lemma shr_exact m n e : 0 <= n ->
  shr (exact_record (shl m n)) e n = (exact_record m, e + n).
Proof.
  intros Hn. destruct n as [|n|n]; simpl; [|rewrite shr_iter_exact; reflexivity|lia].
  f_equal. lia.
Qed.

Lemma round_aux_shifted s m n t :
  digits m = prec -> 0 <= n -> -149 <= t <= emax - prec ->
  binary_round_aux prec emax s (Zpos (shl m n)) (t - n) loc_Exact = S754_finite s m t.
Proof.
  intros Hd Hn Ht. unfold binary_round_aux, shr_fexp.
  change (Zdigits2 (Z.pos (shl m n))) with (digits (shl m n)).
  rewrite digits_shl, Hd by assumption.
  replace (prec + n + (t - n)) with (prec + t) by lia.
  rewrite fexp_normal by (unfold prec; lia).
  replace (prec + t - prec - (t - n)) with n by lia.
  change (shr_record_of_loc (Z.pos (shl m n)) loc_Exact) with (exact_record (shl m n)).
  rewrite shr_exact by assumption.
  cbn [exact_record shr_m loc_of_shr_record round_nearest_even shr_record_of_loc].
  change (Zdigits2 (Z.pos m)) with (digits m). rewrite Hd.
  replace (t - n + n) with t by lia.
  rewrite fexp_normal by (unfold prec; lia).
  replace (prec + t - prec - t) with 0 by lia.
  cbn [shr shr_m].
  destruct (Z.leb_spec t (emax - prec)); [reflexivity|lia].
Qed.

Lemma round_shifted s q k e :
  digits q <= prec -> 0 <= k -> -125 <= e + digits q <= emax ->
  binary_round prec emax s (shl q k) (e - k)
  = S754_finite s (shl q (prec - digits q)) (e + digits q - prec).
Proof.
  intros Hd Hk He. unfold binary_round.
  change (Z.pos (digits2_pos (shl q k))) with (digits (shl q k)).
  rewrite digits_shl by assumption.
  replace (digits q + k + (e - k)) with (e + digits q) by lia.
  rewrite fexp_normal by lia.
  set (t := e + digits q - prec).
  set (m := shl q (prec - digits q)).
  assert (Hm : digits m = prec) by (unfold m; rewrite digits_shl; lia).
  unfold shl_align.
  destruct (t - (e - k)) as [|d|d] eqn:Hdiff.
  - replace (shl q k) with (shl m 0) by (unfold m; rewrite shl_shl by lia; f_equal; lia).
    replace (e - k) with (t - 0) by lia.
    apply round_aux_shifted; [assumption|lia|unfold t, prec, emax in *; lia].
  - replace (shl q k) with (shl m (Zpos d)) by (unfold m; rewrite shl_shl by lia; f_equal; lia).
    replace (e - k) with (t - Zpos d) by lia.
    apply round_aux_shifted; [assumption|lia|unfold t, prec, emax in *; lia].
  - replace (Pos.iter xO (shl q k) d) with (shl m 0).
    + replace t with (t - 0) at 1 by lia.
      apply round_aux_shifted; [assumption|lia|unfold t, prec, emax in *; lia].
    + change (Pos.iter xO (shl q k) d) with (shl (shl q k) (Zpos d)).
      unfold m. rewrite !shl_shl by lia. f_equal. lia.
Qed.

Lemma mul_pow2_pos q k : 0 <= k -> Zpos q * 2 ^ k = Zpos (shl q k).
Proof. intros; symmetry; apply shl_spec; assumption. Qed.

Lemma mul_pow2_neg q k : 0 <= k -> Zneg q * 2 ^ k = Zneg (shl q k).
Proof.
  intros Hk. rewrite <- !Pos2Z.opp_pos, Z.mul_opp_l, mul_pow2_pos by assumption.
  reflexivity.
Qed.

Lemma normalize_shifted z k e :
  Z.abs z < 2 ^ prec -> 0 <= k -> -125 <= e <= emax - prec ->
  binary_normalize prec emax (z * 2 ^ k) (e - k) false = canon z e.
Proof.
  intros Hz Hk He. destruct z as [|q|q].
  - reflexivity.
  - rewrite mul_pow2_pos by assumption. simpl binary_normalize. unfold canon.
    pose proof (digits_le q prec ltac:(unfold prec; lia) Hz).
    assert (0 < digits q) by (unfold digits; lia).
    apply round_shifted; unfold prec, emax in *; lia.
  - rewrite mul_pow2_neg by assumption. simpl binary_normalize. unfold canon.
    pose proof (digits_le q prec ltac:(unfold prec; lia) Hz).
    assert (0 < digits q) by (unfold digits; lia).
    apply round_shifted; unfold prec, emax in *; lia.
Qed.

Lemma float_of_int16_canon z : Z.abs z < 2 ^ prec -> float_of_int16 z = canon z 0.
Proof.
  intros Hz. unfold float_of_int16.
  replace z with (z * 2 ^ 0) at 1 by (simpl; lia).
  change 0 with (0 - 0) at 2.
  apply normalize_shifted; unfold prec, emax in *; lia.
Qed.

Lemma fdiv_32768_finite s m e :
  digits m = prec -> -125 <= e <= emax - prec ->
  fdiv (S754_finite s m e) f32768 = S754_finite s m (e - 15).
Proof.
  intros Hd He. unfold fdiv, f32768, SFdiv, SFdiv_core_binary.
  change (Zdigits2 (Z.pos m)) with (digits m). rewrite Hd.
  change (Zdigits2 8388608) with 24.
  replace (prec + e - (24 + -8)) with (e + 8) by (unfold prec; lia).
  rewrite fexp_normal by lia.
  replace (Z.min (e + 8 - prec) (e - -8)) with (e - 16) by (unfold prec; lia).
  replace (e - -8 - (e - 16)) with 24 by lia.
  cbv iota.
  rewrite (surjective_pairing (Z.div_eucl _ _)).
  change (fst (Z.div_eucl ?a ?b)) with (a / b).
  change (snd (Z.div_eucl ?a ?b)) with (a mod b).
  rewrite Z.shiftl_mul_pow2 by lia.
  replace (Z.pos m * 2 ^ 24) with (Z.pos m~0 * 8388608) by lia.
  rewrite Z.div_mul, Z.mod_mul by lia.
  change (new_location 8388608 0) with loc_Exact.
  change (m~0)%positive with (shl m 1).
  replace (e - 16) with (e - 15 - 1) by lia.
  rewrite xorb_false_r.
  apply round_aux_shifted; unfold prec, emax in *; lia.
Qed.

Lemma fmul_half_finite s m e :
  digits m = prec -> -125 <= e <= emax - prec ->
  fmul (S754_finite s m e) fhalf = S754_finite s m (e - 1).
Proof.
  intros Hd He. unfold fmul, fhalf, SFmul.
  replace (m * 8388608)%positive with (shl m 23)
    by (apply Pos2Z.inj; rewrite shl_spec by lia; lia).
  replace (e + -24) with (e - 1 - 23) by lia.
  rewrite xorb_false_r.
  apply round_aux_shifted; unfold prec, emax in *; lia.
Qed.

Lemma canon_finite z e : z <> 0 ->
  canon z e = S754_finite (z <? 0) (shl (mant z) (prec - digits (mant z)))
                          (e + digits (mant z) - prec).
Proof. intros Hz. destruct z; [congruence|reflexivity|reflexivity]. Qed.

Lemma digits_mant z n : 0 < n -> Z.abs z < 2 ^ n -> 0 < digits (mant z) <= n.
Proof.
  intros Hn Hz. split; [unfold digits; lia|].
  destruct z as [|q|q]; simpl in *.
  - unfold digits; simpl; lia.
  - apply digits_le; [lia|assumption].
  - apply digits_le; [lia|assumption].
Qed.

Lemma signed_shl z k : z <> 0 -> 0 <= k ->
  cond_Zopp (z <? 0) (Zpos (shl (mant z) k)) = z * 2 ^ k.
Proof.
  intros Hz Hk. destruct z as [|q|q]; [congruence| |]; simpl mant; simpl Z.ltb; simpl cond_Zopp.
  - symmetry. apply mul_pow2_pos. assumption.
  - symmetry. rewrite Pos2Z.opp_pos. apply mul_pow2_neg. assumption.
Qed.

Lemma shl_align_down mx ex ez : ez <= ex ->
  fst (shl_align mx ex ez) = shl mx (ex - ez).
Proof.
  intros Hle. unfold shl_align.
  destruct (ez - ex) as [|d|d] eqn:Hdiff.
  - replace (ex - ez) with 0 by lia. reflexivity.
  - lia.
  - replace (ex - ez) with (Zpos d) by lia. reflexivity.
Qed.

Lemma fdiv_32768_canon z : Z.abs z < 2 ^ prec ->
  fdiv (canon z 0) f32768 = canon z (-15).
Proof.
  intros Hz. destruct (Z.eq_dec z 0) as [-> | Hnz]; [reflexivity|].
  rewrite !canon_finite by assumption.
  pose proof (digits_mant z prec ltac:(unfold prec; lia) Hz) as Hd.
  rewrite fdiv_32768_finite.
  - f_equal. lia.
  - rewrite digits_shl; lia.
  - unfold prec, emax in *. lia.
Qed.

Lemma fmul_half_canon z e : Z.abs z < 2 ^ prec -> -101 <= e <= emax - prec ->
  fmul (canon z e) fhalf = canon z (e - 1).
Proof.
  intros Hz He. destruct (Z.eq_dec z 0) as [-> | Hnz]; [reflexivity|].
  rewrite !canon_finite by assumption.
  pose proof (digits_mant z prec ltac:(unfold prec; lia) Hz) as Hd.
  rewrite fmul_half_finite.
  - f_equal. lia.
  - rewrite digits_shl; lia.
  - unfold prec, emax in *. lia.
Qed.

Lemma fadd_canon l r e :
  Z.abs l < 2 ^ (prec - 1) -> Z.abs r < 2 ^ (prec - 1) -> -101 <= e <= emax - prec ->
  fadd (canon l e) (canon r e) = canon (l + r) e.
Proof.
  intros Hl Hr He.
  destruct (Z.eq_dec l 0) as [-> | Hl0].
  { destruct r; reflexivity. }
  destruct (Z.eq_dec r 0) as [-> | Hr0].
  { rewrite Z.add_0_r. destruct l; reflexivity. }
  assert (Hl' : Z.abs l < 2 ^ prec) by (unfold prec in *; simpl in *; lia).
  assert (Hr' : Z.abs r < 2 ^ prec) by (unfold prec in *; simpl in *; lia).
  pose proof (digits_mant l prec ltac:(unfold prec; lia) Hl') as Hdl.
  pose proof (digits_mant r prec ltac:(unfold prec; lia) Hr') as Hdr.
  rewrite (canon_finite l), (canon_finite r) by assumption.
  unfold fadd, SFadd.
  set (ex := e + digits (mant l) - prec).
  set (ey := e + digits (mant r) - prec).
  set (ez := Z.min ex ey).
  rewrite !shl_align_down by (unfold ez; lia).
  rewrite !shl_shl by (unfold ez; lia).
  replace (prec - digits (mant l) + (ex - ez)) with (e - ez) by (unfold ex; lia).
  replace (prec - digits (mant r) + (ey - ez)) with (e - ez) by (unfold ey; lia).
  assert (Hk : 0 <= e - ez) by (unfold ez, ex, ey; lia).
  rewrite !signed_shl by assumption.
  rewrite <- Z.mul_add_distr_r.
  replace ez with (e - (e - ez)) at 2 by lia.
  apply normalize_shifted; [|assumption|lia].
  unfold prec in *. simpl in *. lia.
Qed.

Lemma mix_sample_canon l r :
  is_int16 l -> is_int16 r -> mix_sample l r = canon (l + r) (-16).
Proof.
  unfold is_int16. intros Hl Hr. unfold mix_sample.
  rewrite !float_of_int16_canon by (unfold prec; simpl; lia).
  rewrite !fdiv_32768_canon by (unfold prec; simpl; lia).
  rewrite fadd_canon by (unfold prec, emax; simpl; lia).
  rewrite fmul_half_canon by (unfold prec, emax; simpl; lia).
  reflexivity.
Qed.

Lemma exact_mix_eq l r : (exact_mix l r == (l + r) # 65536)%Q.
Proof. unfold exact_mix, Qeq. simpl. lia. Qed.

Lemma SF2Q_canon z e :
  Z.abs z < 2 ^ prec -> e <= 0 ->
  exists q, SF2Q (canon z e) = Some q /\ (q == z # Z.to_pos (2 ^ (- e)))%Q.
Proof.
  intros Hz He. destruct (Z.eq_dec z 0) as [-> | Hnz].
  { exists 0%Q. split; reflexivity. }
  pose proof (digits_mant z prec ltac:(unfold prec; lia) Hz) as Hd.
  rewrite canon_finite by assumption. unfold SF2Q.
  set (d := digits (mant z)) in *.
  assert (Hn : (if z <? 0 then Z.neg (shl (mant z) (prec - d)) else Z.pos (shl (mant z) (prec - d)))
               = z * 2 ^ (prec - d)).
  { rewrite <- signed_shl by lia. destruct (z <? 0); reflexivity. }
  rewrite Hn.
  assert (Hp : forall k, 0 <= k -> Z.pos (Z.to_pos (2 ^ k)) = 2 ^ k).
  { intros k Hk. apply Z2Pos.id. apply Z.pow_pos_nonneg; lia. }
  destruct (Z.leb_spec 0 (e + d - prec)) as [Hge | Hlt].
  - assert (e = 0) by lia. assert (d = prec) by lia. subst e.
    eexists; split; [reflexivity|].
    unfold Qeq, inject_Z. simpl Qnum. simpl Qden.
    replace (prec - d) with 0 by lia. replace (0 + d - prec) with 0 by lia.
    rewrite Z.pow_0_r. lia.
  - eexists; split; [reflexivity|].
    unfold Qeq. simpl Qnum. simpl Qden.
    rewrite !Hp by lia.
    replace (- (e + d - prec)) with ((prec - d) + (- e)) by lia.
    rewrite Z.pow_add_r by lia. ring.
Qed.

Lemma mix_sample_value l r :
  is_int16 l -> is_int16 r ->
  exists q, SF2Q (mix_sample l r) = Some q /\ (q == exact_mix l r)%Q.
Proof.
  intros Hl Hr. rewrite mix_sample_canon by assumption.
  destruct (SF2Q_canon (l + r) (-16)) as (q & Hq & Hv).
  - unfold is_int16, prec in *. simpl. lia.
  - lia.
  - exists q. split; [assumption|]. rewrite Hv, exact_mix_eq. reflexivity.
Qed.

(** ** The frame converter *)

Lemma wrap32_small z : 0 <= z < 2 ^ 32 -> wrap32 z = z.
Proof. intros Hz. unfold wrap32. apply Z.mod_small. assumption. Qed.

Lemma bytesPerFrame_eq : bytesPerFrame = 4.
Proof. reflexivity. Qed.


(** The loop invariant: entries below [i] are kept, entries from [i] on are
    the mixed frames, and the length never changes. *)
Lemma convert_loop_spec (samples : list Z) (N : Z) :
  0 <= N -> 2 * N <= 2 ^ 32 -> 2 * N <= Z.of_nat (length samples) ->
  forall (n : nat) (i : Z) (data : list float32),
    0 <= i -> i + Z.of_nat n = N -> length data = Z.to_nat N ->
    exists out,
      convert_loop samples n i data = Some out
      /\ length out = Z.to_nat N
      /\ (forall j, 0 <= j < i -> out !! Z.to_nat j = data !! Z.to_nat j)
      /\ (forall j, i <= j < N ->
            exists l r, samples !! Z.to_nat (2 * j) = Some l
                        /\ samples !! Z.to_nat (2 * j + 1) = Some r
                        /\ out !! Z.to_nat j = Some (mix_sample l r)).
Proof.
  intros HN Hfit Hlen n. induction n as [|n IH]; intros i data Hi Hn Hdata.
  - exists data. simpl. repeat split; auto. intros j Hj. lia.
  - assert (Hw0 : wrap32 (i * 2) = 2 * i) by (rewrite wrap32_small; lia).
    assert (Hw1 : wrap32 (wrap32 (i * 2) + 1) = 2 * i + 1)
      by (rewrite Hw0, wrap32_small; lia).
    destruct (lookup_lt_is_Some_2 samples (Z.to_nat (2 * i)) ltac:(lia)) as [l Hl].
    destruct (lookup_lt_is_Some_2 samples (Z.to_nat (2 * i + 1)) ltac:(lia)) as [r Hr].
    cbn [convert_loop]. rewrite Hw1, Hw0, Hl, Hr.
    destruct (IH (i + 1) (<[Z.to_nat i := mix_sample l r]> data))
      as (out & Hout & Hlo & Hkeep & Hmix).
    + lia.
    + lia.
    + rewrite length_insert. assumption.
    + exists out. split; [assumption|]. split; [assumption|]. split.
      * intros j Hj. rewrite Hkeep by lia.
        apply list_lookup_insert_ne. lia.
      * intros j Hj. destruct (Z.eq_dec j i) as [-> | Hne].
        -- exists l, r. split; [assumption|]. split; [assumption|].
           rewrite Hkeep by lia. apply list_lookup_insert_eq. lia.
        -- apply Hmix. lia.
Qed.

Lemma convert_frames_spec (raw : list Z) (frameCount : Z) :
  0 <= frameCount -> frameCount * 4 < 2 ^ 32 ->
  2 * frameCount <= Z.of_nat (length raw) ->
  exists out,
    convert_frames raw frameCount = Some out
    /\ length out = Z.to_nat frameCount
    /\ (forall i, 0 <= i < frameCount ->
          exists l r, raw !! Z.to_nat (2 * i) = Some l
                      /\ raw !! Z.to_nat (2 * i + 1) = Some r
                      /\ out !! Z.to_nat i = Some (mix_sample l r)).
Proof.
  intros H0 Hfit Hlen. unfold convert_frames.
  destruct (convert_loop_spec raw frameCount H0 ltac:(lia) Hlen
              (Z.to_nat frameCount) 0 (replicate (Z.to_nat frameCount) fzero))
    as (out & Hout & Hlo & _ & Hmix).
  - lia.
  - lia.
  - apply length_replicate.
  - exists out. auto.
Qed.

(** C1 (amended). For every [frameCount] below 2^30, so that the byte size
    [frameCount * 4] fits the [UInt32] in which the callback computes it,
    and every buffer of interleaved int16 stereo samples holding
    [frameCount] frames, the converter of the render callback yields exactly
    [frameCount] samples, sample [i] being the binary32 result of
    [(raw[2i] / 32768.0f + raw[2i+1] / 32768.0f) * 0.5f], whose value is the
    rational [(raw[2i]/32768 + raw[2i+1]/32768) * 1/2] with no rounding error.
    On the input [0, 0, 32767, -32768] with two frames the output is
    [0.0, -(2^-16)], the second being ((32767/32768) + (-32768/32768)) / 2. *)
Theorem C1_frame_converter :
  (forall (raw : list Z) (frameCount : Z),
      0 <= frameCount -> frameCount * 4 < 2 ^ 32 ->
      2 * frameCount <= Z.of_nat (length raw) ->
      Forall is_int16 raw ->
      exists out,
        convert_frames raw frameCount = Some out
        /\ length out = Z.to_nat frameCount
        /\ (forall i, 0 <= i < frameCount ->
              exists l r q,
                raw !! Z.to_nat (2 * i) = Some l
                /\ raw !! Z.to_nat (2 * i + 1) = Some r
                /\ out !! Z.to_nat i = Some (mix_sample l r)
                /\ SF2Q (mix_sample l r) = Some q
                /\ (q == exact_mix l r)%Q))
  /\ convert_frames [0; 0; 32767; -32768] 2
     = Some [S754_zero false; S754_finite true 8388608 (-39)]
  /\ SF2Q (S754_zero false) = Some 0%Q
  /\ (exists q, SF2Q (S754_finite true 8388608 (-39)) = Some q
                /\ (q == ((32767 # 32768) + (-32768 # 32768)) / 2)%Q).
Proof.
  split; [|split; [|split]].
  - intros raw frameCount H0 Hfit Hlen Hraw.
    destruct (convert_frames_spec raw frameCount H0 Hfit Hlen) as (out & Hout & Hlo & Hmix).
    exists out. split; [assumption|]. split; [assumption|].
    intros i Hi. destruct (Hmix i Hi) as (l & r & Hl & Hr & Ho).
    rewrite Forall_lookup in Hraw.
    destruct (mix_sample_value l r (Hraw _ _ Hl) (Hraw _ _ Hr)) as (q & Hq & Hv).
    exists l, r, q. auto.
  - vm_compute. reflexivity.
  - reflexivity.
  - eexists. split; [reflexivity|]. reflexivity.
Qed.

Lemma C1_frame_converter_witness :
  exists out,
    convert_frames [0; 0; 32767; -32768] 2 = Some out
    /\ length out = Z.to_nat 2
    /\ (forall i, 0 <= i < 2 ->
          exists l r q,
            [0; 0; 32767; -32768] !! Z.to_nat (2 * i) = Some l
            /\ [0; 0; 32767; -32768] !! Z.to_nat (2 * i + 1) = Some r
            /\ out !! Z.to_nat i = Some (mix_sample l r)
            /\ SF2Q (mix_sample l r) = Some q
            /\ (q == exact_mix l r)%Q).
Proof.
  apply (proj1 C1_frame_converter [0; 0; 32767; -32768] 2).
  - lia.
  - lia.
  - simpl. lia.
  - unfold is_int16. repeat constructor; lia.
Defined.

(** *** Beyond the 32-bit byte size *)

(** The loop runs past a buffer that is too short for the frames asked
    for. *)
Lemma convert_loop_overrun (samples : list Z) :
  forall (n : nat) (i : Z) (data : list float32),
    0 <= i -> 2 * (i + Z.of_nat n) <= 2 ^ 32 ->
    2 * i <= Z.of_nat (length samples) < 2 * (i + Z.of_nat n) ->
    convert_loop samples n i data = None.
Proof.
  induction n as [|n IH]; intros i data Hi Hfit Hlen; [lia|].
  assert (Hw0 : wrap32 (i * 2) = 2 * i) by (rewrite wrap32_small; lia).
  assert (Hw1 : wrap32 (wrap32 (i * 2) + 1) = 2 * i + 1)
    by (rewrite Hw0, wrap32_small; lia).
  cbn [convert_loop]. rewrite Hw1, Hw0.
  destruct (samples !! Z.to_nat (2 * i)) as [l|] eqn:Hl; [|reflexivity].
  destruct (samples !! Z.to_nat (2 * i + 1)) as [r|] eqn:Hr; [|reflexivity].
  apply lookup_lt_Some in Hr.
  apply IH; lia.
Qed.

Lemma wrap32_double i : wrap32 (i * 2) = 2 * (i mod 2 ^ 31).
Proof.
  unfold wrap32. change (2 ^ 32) with (2 * 2 ^ 31).
  rewrite (Z.mul_comm i 2), Z.mul_mod_distr_l by lia. reflexivity.
Qed.

(** The loop on a buffer that covers every 32-bit index: frame [j] is mixed
    from the samples at [2 * (j mod 2^31)], which is the index [j * 2] as
    [UInt32] arithmetic computes it. *)
Lemma convert_loop_wrapped (samples : list Z) (N : Z) :
  0 <= N -> 2 ^ 32 <= Z.of_nat (length samples) ->
  forall (n : nat) (i : Z) (data : list float32),
    0 <= i -> i + Z.of_nat n = N -> length data = Z.to_nat N ->
    exists out,
      convert_loop samples n i data = Some out
      /\ length out = Z.to_nat N
      /\ (forall j, 0 <= j < i -> out !! Z.to_nat j = data !! Z.to_nat j)
      /\ (forall j, i <= j < N ->
            exists l r, samples !! Z.to_nat (2 * (j mod 2 ^ 31)) = Some l
                        /\ samples !! Z.to_nat (2 * (j mod 2 ^ 31) + 1) = Some r
                        /\ out !! Z.to_nat j = Some (mix_sample l r)).
Proof.
  intros HN Hlen n. induction n as [|n IH]; intros i data Hi Hn Hdata.
  - exists data. simpl. repeat split; auto. intros j Hj. lia.
  - pose proof (Z.mod_pos_bound i (2 ^ 31) ltac:(lia)) as Hm.
    assert (Hw0 : wrap32 (i * 2) = 2 * (i mod 2 ^ 31)) by apply wrap32_double.
    assert (Hw1 : wrap32 (wrap32 (i * 2) + 1) = 2 * (i mod 2 ^ 31) + 1)
      by (rewrite Hw0, wrap32_small; lia).
    destruct (lookup_lt_is_Some_2 samples (Z.to_nat (2 * (i mod 2 ^ 31))) ltac:(lia))
      as [l Hl].
    destruct (lookup_lt_is_Some_2 samples (Z.to_nat (2 * (i mod 2 ^ 31) + 1)) ltac:(lia))
      as [r Hr].
    cbn [convert_loop]. rewrite Hw1, Hw0, Hl, Hr.
    destruct (IH (i + 1) (<[Z.to_nat i := mix_sample l r]> data))
      as (out & Hout & Hlo & Hkeep & Hmix).
    + lia.
    + lia.
    + rewrite length_insert. assumption.
    + exists out. split; [assumption|]. split; [assumption|]. split.
      * intros j Hj. rewrite Hkeep by lia.
        apply list_lookup_insert_ne. lia.
      * intros j Hj. destruct (Z.eq_dec j i) as [-> | Hne].
        -- exists l, r. split; [assumption|]. split; [assumption|].
           rewrite Hkeep by lia. apply list_lookup_insert_eq. lia.
        -- apply Hmix. lia.
Qed.

Lemma replicate_then_lookup {A} (n : nat) (x a b : A) :
  (replicate n x ++ [a; b]) !! 0%nat = Some (if decide (n = 0%nat) then a else x)
  /\ (replicate n x ++ [a; b]) !! n = Some a
  /\ (replicate n x ++ [a; b]) !! S n = Some b.
Proof.
  split; [|split].
  - destruct n; reflexivity.
  - rewrite lookup_app_r by (rewrite length_replicate; lia).
    rewrite length_replicate, Nat.sub_diag. reflexivity.
  - rewrite lookup_app_r by (rewrite length_replicate; lia).
    rewrite length_replicate. replace (S n - n)%nat with 1%nat by lia. reflexivity.
Qed.

(** The part of an invocation up to the size validation, when both
    allocations and the render succeed and the render leaves one buffer
    with a data pointer. *)
Lemma AudioInputCallback_validated inRefCon inNumberFrames env g tsf pl pd p :
  g_isCapturing g = true -> g_tsf g = Some tsf ->
  re_malloc_list env = Some pl -> re_malloc_data env = Some pd ->
  re_render env = noErr -> re_rendered_count env = 1 ->
  mData (re_rendered_buffer env) = Some p ->
  let expected := totalDataByteSize inNumberFrames in
  let pre := [ActCheckBus; ActCheckSession; ActMallocList (Some pl);
              ActMallocData expected (Some pd);
              ActRender inRefCon inNumberFrames noErr] in
  AudioInputCallback inRefCon 1 inNumberFrames env g
  = if mDataByteSize (re_rendered_buffer env) <? expected
    then (CbReturn (-1), pre ++ [ActFree p; ActFree pl])
    else if negb (re_new_data env) then (CbUncaught, pre ++ [ActNewAudioData false])
    else if negb (re_resize env)
    then (CbReturn (-1),
          pre ++ [ActNewAudioData true; ActResize inNumberFrames false;
                  ActDeleteAudioData; ActFree p; ActFree pl])
    else match convert_frames (re_samples env) inNumberFrames with
         | None => (CbUndefined,
                    pre ++ [ActNewAudioData true; ActResize inNumberFrames true])
         | Some data =>
             (CbReturn noErr,
              pre ++ [ActNewAudioData true; ActResize inNumberFrames true;
                      ActEnqueue tsf data (re_enqueue env)]
                  ++ (if negb (re_enqueue env =? napi_ok) then [ActDeleteAudioData] else [])
                  ++ [ActFree p; ActFree pl])
         end.
Proof.
  intros Hc Ht Hl Hd Hr Hn Hp. cbv zeta.
  unfold AudioInputCallback, AllocateAudioBufferList, DeallocateAudioBufferList, finish.
  cbn [mBuffers mNumberBuffers].
  rewrite Hc, Ht, Hl, Hd, Hr, Hn, Hp. simpl. rewrite ?Hp. simpl.
  destruct (mDataByteSize (re_rendered_buffer env) <? totalDataByteSize inNumberFrames);
    [reflexivity|].
  destruct (re_new_data env); simpl; [|reflexivity].
  destruct (re_resize env); simpl; [|reflexivity].
  destruct (convert_frames (re_samples env) inNumberFrames); [|reflexivity].
  destruct (re_enqueue env =? napi_ok); reflexivity.
Qed.

(** The claim read as stated, for every [frameCount].  At 2^30 frames the
    byte size [frameCount * 4] wraps to 0: the callback allocates an empty
    block, a render that reports 0 bytes passes the size validation, and the
    converter reads [raw[0]] past the end of the block.  Beyond 2^31 frames
    the index [i * 2] wraps as well: on a buffer of 2^31 + 1 frames that are
    silent but for the last, (32767, 32767), output sample 2^31 is mixed
    from frame 0 and is [+0.0], not the value the formula gives for
    [raw[2^32]] and [raw[2^32 + 1]]. *)
Lemma C1_frame_converter_counterexample :
  (totalDataByteSize (2 ^ 30) = 0
   /\ convert_frames [] (2 ^ 30) = None
   /\ AudioInputCallback demo_unit 1 (2 ^ 30) demo_render_env_wrapped demo_capturing
      = (CbUndefined,
         [ActCheckBus; ActCheckSession;
          ActMallocList (Some demo_list_ptr); ActMallocData 0 (Some demo_data_ptr);
          ActRender demo_unit (2 ^ 30) noErr;
          ActNewAudioData true; ActResize (2 ^ 30) true]))
  /\ (let raw := replicate (Z.to_nat (2 ^ 32)) 0 ++ [32767; 32767] in
      Z.of_nat (length raw) = 2 * (2 ^ 31 + 1)
      /\ Forall is_int16 raw
      /\ raw !! Z.to_nat (2 * 2 ^ 31) = Some 32767
      /\ raw !! Z.to_nat (2 * 2 ^ 31 + 1) = Some 32767
      /\ exists out,
           convert_frames raw (2 ^ 31 + 1) = Some out
           /\ out !! Z.to_nat (2 ^ 31) = Some (mix_sample 0 0)
           /\ mix_sample 0 0 <> mix_sample 32767 32767).
Proof.
  split.
  - assert (Hconv : convert_frames [] (2 ^ 30) = None).
    { unfold convert_frames. apply convert_loop_overrun.
      - lia.
      - lia.
      - change (length (@nil Z)) with 0%nat. lia. }
    split; [reflexivity|]. split; [assumption|].
    pose proof (AudioInputCallback_validated demo_unit (2 ^ 30) demo_render_env_wrapped
                  demo_capturing demo_channel demo_list_ptr demo_data_ptr demo_data_ptr
                  eq_refl eq_refl eq_refl eq_refl eq_refl eq_refl eq_refl) as Hv.
    cbv zeta in Hv. rewrite Hv.
    change (re_samples demo_render_env_wrapped) with (@nil Z). rewrite Hconv.
    reflexivity.
  - cbv zeta.
    assert (Hbig : Z.of_nat (Z.to_nat (2 ^ 32)) = 2 ^ 32) by (apply Z2Nat.id; lia).
    change (2 * 2 ^ 31) with (2 ^ 32).
    change (2 ^ 32 + 1) with (Z.succ (2 ^ 32)).
    rewrite Z2Nat.inj_succ by lia.
    generalize dependent (Z.to_nat (2 ^ 32)). intros n Hbig.
    assert (Hlen : Z.of_nat (length (replicate n 0 ++ [32767; 32767])) = 2 * (2 ^ 31 + 1)).
    { rewrite length_app, length_replicate.
      change (length [32767; 32767]) with 2%nat. lia. }
    destruct (replicate_then_lookup n 0 32767 32767) as (H0 & Hn & HSn).
    split; [assumption|]. split.
    { apply Forall_app. split.
      - apply Forall_forall. intros x Hx. apply elem_of_replicate in Hx as [-> _].
        unfold is_int16. lia.
      - unfold is_int16. repeat constructor; lia. }
    split; [assumption|]. split; [assumption|].
    unfold convert_frames.
    destruct (convert_loop_wrapped (replicate n 0 ++ [32767; 32767]) (2 ^ 31 + 1)
                ltac:(lia) ltac:(lia) (Z.to_nat (2 ^ 31 + 1)) 0
                (replicate (Z.to_nat (2 ^ 31 + 1)) fzero))
      as (out & Hout & _ & _ & Hmix).
    + lia.
    + lia.
    + apply length_replicate.
    + exists out. split; [assumption|].
      destruct (Hmix (2 ^ 31) ltac:(lia)) as (l & r & Hl & Hr & Ho).
      change (Z.to_nat (2 * (2 ^ 31 mod 2 ^ 31))) with 0%nat in Hl.
      change (Z.to_nat (2 * (2 ^ 31 mod 2 ^ 31) + 1)) with 1%nat in Hr.
      rewrite H0 in Hl. destruct (decide (n = 0%nat)) as [Hz | _]; [lia|].
      rewrite lookup_app_l in Hr by (rewrite length_replicate; lia).
      rewrite lookup_replicate_2 in Hr by lia.
      inversion Hl; inversion Hr; subst l r.
      split; [assumption|]. vm_compute. discriminate.
Qed.

(** ** Range of the converted samples *)



Lemma canon_le_one z :
  -65536 <= z <= 65534 -> fleb (canon z (-16)) fone = true.
Proof.
  intros Hz. destruct z as [|q|q]; [reflexivity| |reflexivity].
  assert (Hd : digits q <= 16) by (apply digits_le; lia).
  unfold canon, fleb, SFleb, SFcompare, fone.
  destruct (Z.compare_spec (-16 + digits q - prec) (-23)) as [He|He|He];
    unfold prec in *; first [reflexivity | lia].
Qed.

Lemma canon_ge_minus_one z :
  -65536 <= z <= 65534 -> fleb (SFopp fone) (canon z (-16)) = true.
Proof.
  intros Hz. destruct z as [|q|q]; [reflexivity|reflexivity|].
  assert (Hd : digits q <= 17) by (apply digits_le; lia).
  unfold canon, fleb, SFleb, SFcompare, fone, SFopp. cbn [negb].
  destruct (Z.compare_spec (-23) (-16 + digits q - prec)) as [He|He|He];
    unfold prec in *; [|lia|reflexivity].
  assert (Hd17 : digits q = 17) by lia.
  pose proof (digits_bounds q) as [Hlo _]. rewrite Hd17 in Hlo. simpl in Hlo.
  assert (Hq : q = 65536%positive) by lia.
  subst q. reflexivity.
Qed.

(** C7. For every pair of int16 samples the converted sample
    [((left/32768) + (right/32768)) * 0.5] is not NaN (it is a finite number
    or zero) and lies in [-1.0, 1.0], both as the rational it denotes and
    under the binary32 comparison with [-1.0f] and [1.0f]. *)
Theorem C7_converter_range (l r : Z) :
  is_int16 l -> is_int16 r ->
  is_nan (mix_sample l r) = false
  /\ (exists q, SF2Q (mix_sample l r) = Some q
                /\ (q == exact_mix l r)%Q
                /\ (- (1) <= q)%Q /\ (q <= 1)%Q)
  /\ fleb (SFopp fone) (mix_sample l r) = true
  /\ fleb (mix_sample l r) fone = true.
Proof.
  intros Hl Hr.
  destruct (mix_sample_value l r Hl Hr) as (q & Hq & Hv).
  split; [|split; [|split]].
  - destruct (mix_sample l r); simpl in *; congruence.
  - exists q. split; [assumption|]. split; [assumption|].
    rewrite Hv, exact_mix_eq. unfold is_int16 in *.
    split; unfold Qle; simpl; lia.
  - rewrite mix_sample_canon by assumption.
    apply canon_ge_minus_one. unfold is_int16 in *. lia.
  - rewrite mix_sample_canon by assumption.
    apply canon_le_one. unfold is_int16 in *. lia.
Qed.

Lemma C7_converter_range_witness :
  is_nan (mix_sample 32767 (-32768)) = false
  /\ (exists q, SF2Q (mix_sample 32767 (-32768)) = Some q
                /\ (q == exact_mix 32767 (-32768))%Q
                /\ (- (1) <= q)%Q /\ (q <= 1)%Q)
  /\ fleb (SFopp fone) (mix_sample 32767 (-32768)) = true
  /\ fleb (mix_sample 32767 (-32768)) fone = true.
Proof.
  apply (C7_converter_range 32767 (-32768)); unfold is_int16; lia.
Defined.

(** ** The capture session *)

Example demo_start_succeeds :
  StartCapture demo_info demo_start_env initial_globals
  = (Returned (JsBoolean true), demo_capturing,
     [EvGetDevicesSize; EvGetDevices; EvGetDeviceUID 41; EvGetDeviceUID 42;
      EvFindComponent; EvInstanceNew noErr (Some demo_unit);
      EvEnableInput demo_unit noErr; EvDisableOutput demo_unit noErr;
      EvSetCurrentDevice demo_unit 42 noErr;
      EvSetStreamFormat demo_unit desiredFormat noErr;
      EvGetStreamFormat demo_unit noErr; EvSetInputCallback demo_unit true noErr;
      EvInitialize demo_unit noErr; EvTsfNew demo_callback (Some demo_channel);
      EvTsfAcquire demo_channel; EvStart demo_unit noErr]).
Proof. reflexivity. Qed.

Example demo_stop_tears_down :
  StopCapture demo_stop_env demo_capturing
  = (Returned (JsBoolean true), initial_globals,
     [EvStop demo_unit noErr; EvUninitialize demo_unit noErr;
      EvSetInputCallback demo_unit false noErr; EvDispose demo_unit noErr;
      EvTsfRelease demo_channel napi_ok]).
Proof. reflexivity. Qed.

(** The device lookup only queries the HAL. *)
Lemma find_device_uid_queries h uid ids tr :
  Forall (fun e => is_query e = true) tr ->
  Forall (fun e => is_query e = true) (snd (find_device_uid h uid ids tr)).
Proof.
  revert tr. induction ids as [|d rest IH]; intros tr Htr; simpl.
  - assumption.
  - destruct (hal_device_uid h d) as [status ref].
    assert (Htr' : Forall (fun e => is_query e = true) (tr ++ [EvGetDeviceUID d])).
    { apply Forall_app. split; [assumption|]. repeat constructor. }
    destruct ((status =? noErr) && bool_decide (is_Some ref)); [|apply IH; assumption].
    destruct (String.eqb (ConvertCFString ref) uid); [assumption|apply IH; assumption].
Qed.

Lemma GetAudioDeviceIDFromUID_queries h uid :
  Forall (fun e => is_query e = true) (snd (GetAudioDeviceIDFromUID h uid)).
Proof.
  unfold GetAudioDeviceIDFromUID.
  destruct (hal_devices_size h) as [status dataSize].
  destruct (negb (status =? noErr) || (dataSize =? 0)); [repeat constructor|].
  destruct (hal_devices h) as [status' answer].
  destruct (negb (status' =? noErr)); [repeat constructor|].
  apply find_device_uid_queries. repeat constructor.
Qed.

(** A lookup that fails leaves [kAudioDeviceUnknown] in the out-parameter. *)
Lemma find_device_uid_failure h uid ids tr :
  (find_device_uid h uid ids tr).1.1 <> noErr ->
  (find_device_uid h uid ids tr).1.2 = kAudioDeviceUnknown.
Proof.
  revert tr. induction ids as [|d rest IH]; intros tr; simpl.
  - reflexivity.
  - destruct (hal_device_uid h d) as [status ref].
    destruct ((status =? noErr) && bool_decide (is_Some ref)); [|apply IH].
    destruct (String.eqb (ConvertCFString ref) uid); [|apply IH].
    simpl. congruence.
Qed.

Lemma GetAudioDeviceIDFromUID_failure h uid :
  (GetAudioDeviceIDFromUID h uid).1.1 <> noErr ->
  (GetAudioDeviceIDFromUID h uid).1.2 = kAudioDeviceUnknown.
Proof.
  unfold GetAudioDeviceIDFromUID.
  destruct (hal_devices_size h) as [status dataSize].
  destruct (negb (status =? noErr) || (dataSize =? 0)); [reflexivity|].
  destruct (hal_devices h) as [status' answer].
  destruct (negb (status' =? noErr)); [reflexivity|].
  apply find_device_uid_failure.
Qed.

Lemma queries_hold_nothing tr :
  Forall (fun e => is_query e = true) tr ->
  acquired_units tr = [] /\ disposed_units tr = [] /\ created_channels tr = [].
Proof.
  induction 1 as [|e tr He _ IH]; [auto|].
  destruct IH as (Ha & Hd & Hc).
  unfold acquired_units, disposed_units, created_channels in *.
  simpl. rewrite Ha, Hd, Hc.
  destruct e; try discriminate He; auto.
Qed.

(** Queries leave every thread count as it is. *)
Lemma queries_keep_threads t tr n :
  Forall (fun e => is_query e = true) tr -> fold_left (thread_step t) tr n = n.
Proof.
  induction 1 as [|e tr He _ IH]; [reflexivity|].
  simpl. rewrite <- IH at 2. destruct e; try discriminate He; reflexivity.
Qed.

Lemma thread_count_app t a b :
  thread_count t (a ++ b) = fold_left (thread_step t) b (thread_count t a).
Proof. apply fold_left_app. Qed.

Lemma acquired_units_app a b : acquired_units (a ++ b) = acquired_units a ++ acquired_units b.
Proof. apply flat_map_app. Qed.

Lemma disposed_units_app a b : disposed_units (a ++ b) = disposed_units a ++ disposed_units b.
Proof. apply flat_map_app. Qed.

Lemma created_channels_app a b :
  created_channels (a ++ b) = created_channels a ++ created_channels b.
Proof. apply flat_map_app. Qed.

Create Rewrite HintDb trace_db.
#[local] Hint Rewrite acquired_units_app disposed_units_app
  created_channels_app : trace_db.

(** Case analysis on every test [StartCapture] makes. *)
Ltac start_cases :=
  repeat match goal with
         | |- context [if ?b then _ else _] => destruct b eqn:?
         | |- context [match ?x with Some _ => _ | None => _ end] => destruct x eqn:?
         end.

Ltac trace_simpl :=
  simpl; autorewrite with trace_db; simpl;
  repeat match goal with
         | H : _ = [] |- _ => rewrite H
         | H : (_ =? _) = _ |- _ => rewrite H
         end;
  simpl.

(** The thread count of a trace that ends in the given calls, the lookup's
    queries coming first. *)
Ltac thread_count_simpl Hq :=
  unfold thread_count; rewrite ?fold_left_app;
  rewrite ?(queries_keep_threads _ _ _ Hq);
  cbn [fold_left thread_step];
  rewrite ?Pos.eqb_refl; cbn [andb].

Ltac start_failed Hq :=
  eexists; split; [reflexivity|]; split; [reflexivity|]; split; [reflexivity|];
  split; [trace_simpl; reflexivity|];
  let t := fresh "t" in let Hin := fresh "Hin" in
  intros t Hin; revert Hin; trace_simpl; intros Hin;
  first [ contradiction
        | destruct Hin as [<- | []]; thread_count_simpl Hq;
          unfold initial_thread_count;
          match goal with |- context [if ?b then _ else _] => destruct b end; lia ].

Lemma StartCapture_from_idle info env g :
  idle g ->
  let out := StartCapture info env g in
  let resolved := snd (fst (GetAudioDeviceIDFromUID (se_hal env) (Utf8Value (info_at info 0)))) in
  if arguments_ok info && configuration_succeeds info env
  then exists u t,
      se_instance_new env = (noErr, Some u) /\ se_tsf_new env = Some t
      /\ out.1.1 = Returned (JsBoolean true)
      /\ out.1.2 = {| g_isCapturing := true; g_audioUnit := Some u;
                      g_targetDeviceID := resolved; g_tsf := Some t |}
      /\ acquired_units out.2 = [u] /\ disposed_units out.2 = []
      /\ created_channels out.2 = [t] /\ thread_count t out.2 = 2
  else exists e,
      out.1.1 = Thrown e
      /\ out.1.2 = set_targetDeviceID (g_targetDeviceID out.1.2) g
      /\ g_targetDeviceID out.1.2
         = (if arguments_ok info then resolved else g_targetDeviceID g)
      /\ acquired_units out.2 = disposed_units out.2
      /\ (forall t, In t (created_channels out.2) -> 1 <= thread_count t out.2).
Proof.
  intros (Hc & Hu & Ht). destruct g as [c u d t]. simpl in Hc, Hu, Ht. subst.
  unfold StartCapture, arguments_ok, configuration_succeeds. simpl.
  pose proof (GetAudioDeviceIDFromUID_queries (se_hal env) (Utf8Value (info_at info 0))) as Hq.
  destruct (GetAudioDeviceIDFromUID (se_hal env) (Utf8Value (info_at info 0)))
    as [[status dev] tr0].
  simpl in Hq.
  destruct (queries_hold_nothing _ Hq) as (Ha & Hd & Hcr).
  destruct (se_instance_new env) as [st_new out_new]. simpl.
  destruct ((length info <? 2)%nat || negb (IsString (info_at info 0))
            || negb (IsFunction (info_at info 1))) eqn:Hargs; simpl.
  { eexists. repeat split. intros t []. }
  destruct (status =? noErr) eqn:E1; simpl; [|start_failed Hq].
  destruct (dev =? kAudioDeviceUnknown) eqn:E2; simpl; [start_failed Hq|].
  destruct (se_find_component env) eqn:E3; simpl; [|start_failed Hq].
  destruct out_new as [u|]; destruct (st_new =? noErr) eqn:E4; simpl;
    [|start_failed Hq|start_failed Hq|start_failed Hq].
  destruct (se_enable_input env =? noErr) eqn:E5; simpl; [|start_failed Hq].
  destruct (se_set_device env =? noErr) eqn:E6; simpl; [|start_failed Hq].
  destruct (se_set_format env =? noErr) eqn:E7; simpl; [|start_failed Hq].
  destruct (se_set_callback env =? noErr) eqn:E8; simpl; [|start_failed Hq].
  destruct (se_initialize env =? noErr) eqn:E9; simpl; [|start_failed Hq].
  destruct (se_tsf_new env) as [t|] eqn:E10; simpl; [|start_failed Hq].
  destruct (se_start env =? noErr) eqn:E11; simpl; [|start_failed Hq].
  apply Z.eqb_eq in E4. subst st_new.
  exists u, t. repeat split; trace_simpl; try reflexivity.
  thread_count_simpl Hq. reflexivity.
Qed.

Lemma idle_set_targetDeviceID d g : idle g -> idle (set_targetDeviceID d g).
Proof. intros H. exact H. Qed.

(** What a failed [StartCapture] on an idle session leaves behind: the
    unit handle and the channel handle are null and the flag is false, every
    unit it created has been passed to [AudioComponentInstanceDispose], the
    target device id holds what the lookup wrote, and a channel it created
    still has a thread to its count. *)
Lemma StartCapture_failure_state (info : list napi_value) (env : start_env) (g : globals) :
  idle g ->
  arguments_ok info && configuration_succeeds info env = false ->
  exists e g' tr,
    StartCapture info env g = (Thrown e, g', tr)
    /\ idle g'
    /\ g' = set_targetDeviceID (g_targetDeviceID g') g
    /\ acquired_units tr = disposed_units tr
    /\ (forall t, In t (created_channels tr) -> 1 <= thread_count t tr).
Proof.
  intros Hidle Hfail.
  pose proof (StartCapture_from_idle info env g Hidle) as H. cbv zeta in H.
  rewrite Hfail in H.
  destruct (StartCapture info env g) as [[r g'] tr]. simpl in H.
  destruct H as (e & -> & Hg & Hd & Ha & Hc).
  exists e, g', tr. split; [reflexivity|]. split.
  - rewrite Hg. apply idle_set_targetDeviceID. assumption.
  - auto.
Qed.

(** C4 (failing input). [StartCapture] is called on the idle session with
    a string and a function, every step up to the creation of the delivery
    channel succeeds, and [AudioOutputUnitStart] fails.  The call throws, the
    unit is uninitialised and disposed of, and the unit handle and the
    channel handle are reset; but the channel was created with an initial
    thread count of 1 and acquired once more, and the single [Release] of
    line 521 leaves its thread count at 1.  The channel is not finalised and
    no handle to it remains.  The target device id keeps the resolved id 42
    as well, which only [StopCapture] resets. *)
Theorem C4_start_failure_rollback_failing :
  idle initial_globals
  /\ arguments_ok demo_info = true
  /\ StartCapture demo_info demo_start_env_start_fails initial_globals
     = (Thrown (Error_StartUnit (-1)),
        set_targetDeviceID 42 initial_globals,
        [EvGetDevicesSize; EvGetDevices; EvGetDeviceUID 41; EvGetDeviceUID 42;
         EvFindComponent; EvInstanceNew noErr (Some demo_unit);
         EvEnableInput demo_unit noErr; EvDisableOutput demo_unit noErr;
         EvSetCurrentDevice demo_unit 42 noErr;
         EvSetStreamFormat demo_unit desiredFormat noErr;
         EvGetStreamFormat demo_unit noErr; EvSetInputCallback demo_unit true noErr;
         EvInitialize demo_unit noErr; EvTsfNew demo_callback (Some demo_channel);
         EvTsfAcquire demo_channel; EvStart demo_unit (-1);
         EvTsfRelease demo_channel napi_ok;
         EvUninitialize demo_unit noErr; EvDispose demo_unit noErr])
  /\ created_channels
       (StartCapture demo_info demo_start_env_start_fails initial_globals).2
     = [demo_channel]
  /\ thread_count demo_channel
       (StartCapture demo_info demo_start_env_start_fails initial_globals).2 = 1
  /\ g_tsf (StartCapture demo_info demo_start_env_start_fails initial_globals).1.2 = None
  /\ g_targetDeviceID (StartCapture demo_info demo_start_env_start_fails initial_globals).1.2
     = 42
  /\ g_targetDeviceID initial_globals = kAudioDeviceUnknown.
Proof. repeat split. Qed.

Lemma StartCapture_while_capturing info env g :
  g_isCapturing g = true ->
  StartCapture info env g
  = (Thrown (if arguments_ok info then Error_CaptureInProgress
             else TypeError_ExpectedArguments), g, []).
Proof.
  intros Hc. unfold StartCapture, arguments_ok.
  destruct ((length info <? 2)%nat || negb (IsString (info_at info 0))
            || negb (IsFunction (info_at info 1))); simpl.
  - reflexivity.
  - rewrite Hc. reflexivity.
Qed.

(** The claim read as stated: every [StartCapture] on an active session
    should fail with the already-capturing error.  Called without arguments
    it fails with the type error of the argument check instead. *)
Lemma C5_already_capturing_counterexample :
  g_isCapturing demo_capturing = true
  /\ StartCapture [] demo_start_env demo_capturing
     = (Thrown TypeError_ExpectedArguments, demo_capturing, [])
  /\ fst (fst (StartCapture [] demo_start_env demo_capturing))
     <> Thrown Error_CaptureInProgress.
Proof. split; [reflexivity|]. split; [reflexivity|]. discriminate. Qed.

(** C5 (amended). Whenever [StartCapture] is called while the capturing
    flag is set, it throws before any hardware or channel operation (its
    trace is empty) and leaves all globals untouched; the exception is the
    already-capturing error when the arguments are a string and a function,
    and the type error of the argument check otherwise. *)
Theorem C5_already_capturing (info : list napi_value) (env : start_env) (g : globals) :
  g_isCapturing g = true ->
  StartCapture info env g
  = (Thrown (if arguments_ok info then Error_CaptureInProgress
             else TypeError_ExpectedArguments), g, []).
Proof. apply StartCapture_while_capturing. Qed.

Lemma C5_already_capturing_witness :
  StartCapture demo_info demo_start_env demo_capturing
  = (Thrown (if arguments_ok demo_info then Error_CaptureInProgress
             else TypeError_ExpectedArguments), demo_capturing, []).
Proof. apply (C5_already_capturing demo_info demo_start_env demo_capturing). reflexivity. Defined.

(** C10. Every invocation of [StartCapture] with fewer than two arguments,
    or whose first argument is not a string, or whose second argument is not
    a function, throws the type error, makes no platform call and leaves the
    capturing flag, the unit handle, the target device id and the delivery
    channel at their prior values. *)
Theorem C10_argument_check (info : list napi_value) (env : start_env) (g : globals) :
  (length info < 2)%nat
  \/ IsString (info_at info 0) = false
  \/ IsFunction (info_at info 1) = false ->
  exists g',
    StartCapture info env g = (Thrown TypeError_ExpectedArguments, g', [])
    /\ g_isCapturing g' = g_isCapturing g
    /\ g_audioUnit g' = g_audioUnit g
    /\ g_targetDeviceID g' = g_targetDeviceID g
    /\ g_tsf g' = g_tsf g.
Proof.
  intros Hbad. exists g. split; [|auto].
  unfold StartCapture.
  assert (Hcond : (length info <? 2)%nat || negb (IsString (info_at info 0))
                  || negb (IsFunction (info_at info 1)) = true).
  { destruct Hbad as [Hlen | [Hs | Hf]].
    - apply Nat.ltb_lt in Hlen. rewrite Hlen. reflexivity.
    - rewrite Hs. simpl. rewrite orb_true_r. reflexivity.
    - rewrite Hf. simpl. rewrite orb_true_r. reflexivity. }
  rewrite Hcond. reflexivity.
Qed.

Lemma C10_argument_check_witness :
  exists g',
    StartCapture [JsString "mic"; JsNumber 3] demo_start_env demo_capturing
    = (Thrown TypeError_ExpectedArguments, g', [])
    /\ g_isCapturing g' = g_isCapturing demo_capturing
    /\ g_audioUnit g' = g_audioUnit demo_capturing
    /\ g_targetDeviceID g' = g_targetDeviceID demo_capturing
    /\ g_tsf g' = g_tsf demo_capturing.
Proof.
  apply (C10_argument_check [JsString "mic"; JsNumber 3] demo_start_env demo_capturing).
  right. right. reflexivity.
Defined.

(** ** The session invariant *)

Lemma session_invariant_idle g : session_invariant g -> g_isCapturing g = false -> idle g.
Proof. intros [_ H] Hc. destruct (H Hc). repeat split; assumption. Qed.

Lemma idle_invariant g : idle g -> session_invariant g.
Proof.
  intros (Hc & Hu & Ht). split; intros H; [congruence|auto].
Qed.

Lemma StartCapture_invariant info env g :
  session_invariant g -> session_invariant (StartCapture info env g).1.2.
Proof.
  intros Hinv. destruct (g_isCapturing g) eqn:Hc.
  - rewrite StartCapture_while_capturing by assumption. assumption.
  - pose proof (session_invariant_idle g Hinv Hc) as Hidle.
    pose proof (StartCapture_from_idle info env g Hidle) as H. cbv zeta in H.
    destruct (arguments_ok info && configuration_succeeds info env).
    + destruct H as (u & t & _ & _ & _ & -> & _).
      split; simpl; [intros _; split; eexists; reflexivity|discriminate].
    + destruct H as (e & _ & -> & _).
      apply idle_invariant, idle_set_targetDeviceID. assumption.
Qed.

Lemma StopCapture_result env g : (StopCapture env g).1.1 = Returned (JsBoolean true).
Proof.
  unfold StopCapture.
  destruct (g_isCapturing g); simpl.
  - destruct (g_audioUnit g); simpl; destruct (g_tsf g); reflexivity.
  - destruct (g_tsf g); reflexivity.
Qed.

Lemma StopCapture_idle env g : idle g -> StopCapture env g = (Returned (JsBoolean true), g, []).
Proof.
  intros (Hc & Hu & Ht). unfold StopCapture. rewrite Hc, Ht. reflexivity.
Qed.

Lemma StopCapture_clears env g :
  session_invariant g ->
  (StopCapture env g).1.2
  = {| g_isCapturing := false; g_audioUnit := None;
       g_targetDeviceID := (if g_isCapturing g then kAudioDeviceUnknown
                            else g_targetDeviceID g);
       g_tsf := None |}.
Proof.
  intros [Hset Hclear]. unfold StopCapture. destruct g as [c u d t]. simpl in *.
  destruct c; simpl.
  - destruct u, t; reflexivity.
  - destruct (Hclear eq_refl) as [-> ->]. reflexivity.
Qed.

Lemma StopCapture_invariant env g :
  session_invariant g -> session_invariant (StopCapture env g).1.2.
Proof.
  intros Hinv. rewrite StopCapture_clears by assumption.
  apply idle_invariant. repeat split.
Qed.

Lemma run_op_invariant op g : session_invariant g -> session_invariant (run_op op g).
Proof.
  intros Hinv. destruct op; simpl.
  - assumption.
  - apply StartCapture_invariant. assumption.
  - apply StopCapture_invariant. assumption.
  - assumption.
Qed.

Lemma run_ops_invariant ops : forall g,
  session_invariant g -> session_invariant (run_ops ops g).
Proof.
  induction ops as [|op ops IH]; intros g Hinv; simpl.
  - assumption.
  - apply IH, run_op_invariant. assumption.
Qed.

Lemma reachable_invariant g : reachable g -> session_invariant g.
Proof.
  intros [ops ->]. apply run_ops_invariant, idle_invariant. repeat split.
Qed.

Lemma run_ops_snoc ops op g : run_ops (ops ++ [op]) g = run_op op (run_ops ops g).
Proof. unfold run_ops. rewrite fold_left_app. reflexivity. Qed.

Lemma reachable_step op g : reachable g -> reachable (run_op op g).
Proof.
  intros [ops ->]. exists (ops ++ [op]). symmetry. apply run_ops_snoc.
Qed.

Lemma reachable_initial : reachable initial_globals.
Proof. exists []. reflexivity. Qed.

Lemma reachable_demo_capturing : reachable demo_capturing.
Proof. exists [OpStartCapture demo_info demo_start_env]. reflexivity. Qed.

Lemma StartCapture_outcome info env g :
  reachable g ->
  let out := StartCapture info env g in
  match out.1.1 with
  | Returned _ => is_Some (g_audioUnit out.1.2) /\ g_isCapturing out.1.2 = true
  | Thrown _ => g_audioUnit out.1.2 = g_audioUnit g
                /\ g_isCapturing out.1.2 = g_isCapturing g
  end.
Proof.
  intros Hr. pose proof (reachable_invariant g Hr) as Hinv. cbv zeta.
  destruct (g_isCapturing g) eqn:Hc.
  - rewrite StartCapture_while_capturing by assumption. simpl. auto.
  - pose proof (StartCapture_from_idle info env g
                  (session_invariant_idle g Hinv Hc)) as H. cbv zeta in H.
    destruct (arguments_ok info && configuration_succeeds info env).
    + destruct H as (u & t & _ & _ & -> & -> & _). simpl.
      split; [eexists; reflexivity|reflexivity].
    + destruct H as (e & -> & -> & _). simpl. auto.
Qed.

(** The claim read as stated: every failed [StartCapture] should leave the
    unit handle and the capturing flag cleared.  One that is rejected while
    a session is active leaves both set. *)
Lemma C9_handle_iff_capturing_counterexample :
  reachable demo_capturing
  /\ StartCapture demo_info demo_start_env demo_capturing
     = (Thrown Error_CaptureInProgress, demo_capturing, [])
  /\ ~ (g_audioUnit (StartCapture demo_info demo_start_env demo_capturing).1.2 = None
        /\ g_isCapturing (StartCapture demo_info demo_start_env demo_capturing).1.2 = false).
Proof.
  split; [apply reachable_demo_capturing|]. split; [reflexivity|].
  intros [H _]. discriminate H.
Qed.

(** C9 (amended). In every state the module reaches, that is at the entry
    and at the exit of every exported operation, the hardware unit handle is
    non-null if and only if the capturing flag is set.  A successful
    [StartCapture] establishes both; a failed [StartCapture] leaves both as
    they were at entry, hence cleared when the session was idle and set when
    it was rejected because a session was active; [StopCapture] clears
    both. *)
Theorem C9_handle_iff_capturing :
  (forall g, reachable g -> (is_Some (g_audioUnit g) <-> g_isCapturing g = true))
  /\ (forall g op, reachable g -> reachable (run_op op g))
  /\ (forall g info env, reachable g ->
        let out := StartCapture info env g in
        match out.1.1 with
        | Returned _ => is_Some (g_audioUnit out.1.2) /\ g_isCapturing out.1.2 = true
        | Thrown _ => g_audioUnit out.1.2 = g_audioUnit g
                      /\ g_isCapturing out.1.2 = g_isCapturing g
        end)
  /\ (forall g info env e, reachable g -> g_isCapturing g = false ->
        (StartCapture info env g).1.1 = Thrown e ->
        g_audioUnit (StartCapture info env g).1.2 = None
        /\ g_isCapturing (StartCapture info env g).1.2 = false)
  /\ (forall g env, reachable g ->
        g_audioUnit (StopCapture env g).1.2 = None
        /\ g_isCapturing (StopCapture env g).1.2 = false).
Proof.
  split; [|split; [|split; [|split]]].
  - intros g Hr. destruct (reachable_invariant g Hr) as [Hset Hclear]. split.
    + intros Hu. destruct (g_isCapturing g); [reflexivity|].
      destruct (Hclear eq_refl) as [Hnone _]. rewrite Hnone in Hu.
      destruct Hu as [? Hu]. discriminate Hu.
    + intros Hc. apply Hset. assumption.
  - intros g op Hr. apply reachable_step. assumption.
  - intros g info env Hr. apply StartCapture_outcome. assumption.
  - intros g info env e Hr Hc He.
    pose proof (StartCapture_outcome info env g Hr) as H. cbv zeta in H.
    rewrite He in H. destruct H as [Hu Hf]. rewrite Hu, Hf.
    destruct (reachable_invariant g Hr) as [_ Hclear].
    destruct (Hclear Hc). auto.
  - intros g env Hr.
    rewrite StopCapture_clears by (apply reachable_invariant; assumption). auto.
Qed.

Lemma C9_handle_iff_capturing_witness :
  is_Some (g_audioUnit demo_capturing) <-> g_isCapturing demo_capturing = true.
Proof.
  apply (proj1 C9_handle_iff_capturing demo_capturing).
  exists [OpStartCapture demo_info demo_start_env]. reflexivity.
Defined.

(** C6. [StopCapture] always returns [true].  On an idle session it makes
    no platform call and leaves the globals as they are.  On a capturing
    session it stops, uninitialises, unregisters the callback of and disposes
    of the unit and releases the delivery channel, whatever status each of
    these steps returns, and ends in the initial, idle state.  A second
    [StopCapture] after any [StopCapture] is such a no-op: the operation is
    idempotent. *)
Theorem C6_stop_idempotent :
  (forall env g, (StopCapture env g).1.1 = Returned (JsBoolean true))
  /\ (forall env g, reachable g -> g_isCapturing g = false ->
        StopCapture env g = (Returned (JsBoolean true), g, []))
  /\ (forall env g, reachable g -> g_isCapturing g = true ->
        exists u t,
          g_audioUnit g = Some u /\ g_tsf g = Some t
          /\ StopCapture env g
             = (Returned (JsBoolean true), initial_globals,
                [EvStop u (st_stop env);
                 EvUninitialize u (st_uninitialize env);
                 EvSetInputCallback u false (st_clear_callback env);
                 EvDispose u (st_dispose env);
                 EvTsfRelease t (st_tsf_release env)]))
  /\ (forall env env' g,
        StopCapture env' (StopCapture env g).1.2
        = (Returned (JsBoolean true), (StopCapture env g).1.2, [])).
Proof.
  split; [|split; [|split]].
  - apply StopCapture_result.
  - intros env g Hr Hc. apply StopCapture_idle.
    apply session_invariant_idle; [apply reachable_invariant|]; assumption.
  - intros env g Hr Hc.
    destruct (reachable_invariant g Hr) as [Hset _].
    destruct (Hset Hc) as [[u Hu] [t Ht]].
    exists u, t. split; [assumption|]. split; [assumption|].
    unfold StopCapture. destruct g as [c u' d t']. simpl in *. subst. reflexivity.
  - intros env env' g. unfold StopCapture at 2 3.
    destruct g as [c u d t]. simpl.
    destruct c; simpl.
    + destruct u, t; reflexivity.
    + destruct t; reflexivity.
Qed.

Lemma C6_stop_idempotent_witness :
  StopCapture demo_stop_env initial_globals
  = (Returned (JsBoolean true), initial_globals, [])
  /\ exists u t,
       g_audioUnit demo_capturing = Some u /\ g_tsf demo_capturing = Some t
       /\ StopCapture demo_stop_env demo_capturing
          = (Returned (JsBoolean true), initial_globals,
             [EvStop u (st_stop demo_stop_env);
              EvUninitialize u (st_uninitialize demo_stop_env);
              EvSetInputCallback u false (st_clear_callback demo_stop_env);
              EvDispose u (st_dispose demo_stop_env);
              EvTsfRelease t (st_tsf_release demo_stop_env)]).
Proof.
  split.
  - apply (proj1 (proj2 C6_stop_idempotent) demo_stop_env initial_globals).
    + exists []. reflexivity.
    + reflexivity.
  - apply (proj1 (proj2 (proj2 C6_stop_idempotent)) demo_stop_env demo_capturing).
    + exists [OpStartCapture demo_info demo_start_env]. reflexivity.
    + reflexivity.
Defined.

(** ** The render callback *)

Example demo_render_delivers :
  AudioInputCallback demo_unit 1 2 demo_render_env demo_capturing
  = (CbReturn noErr,
     [ActCheckBus; ActCheckSession;
      ActMallocList (Some demo_list_ptr); ActMallocData 8 (Some demo_data_ptr);
      ActRender demo_unit 2 noErr;
      ActNewAudioData true; ActResize 2 true;
      ActEnqueue demo_channel [S754_zero false; S754_finite true 8388608 (-39)] napi_ok;
      ActFree demo_data_ptr; ActFree demo_list_ptr]).
Proof. vm_compute. reflexivity. Qed.

(** The claim read as stated: the session check should be the first action
    of the callback.  The bus check comes first, and on another bus the
    session check is not made at all. *)
Lemma C2_session_guard_counterexample :
  g_isCapturing initial_globals = false
  /\ AudioInputCallback demo_unit 1 2 demo_render_env initial_globals
     = (CbReturn noErr, [ActCheckBus; ActCheckSession])
  /\ hd_error (AudioInputCallback demo_unit 1 2 demo_render_env initial_globals).2
     <> Some ActCheckSession
  /\ AudioInputCallback demo_unit 0 2 demo_render_env initial_globals
     = (CbReturn noErr, [ActCheckBus]).
Proof.
  split; [reflexivity|]. split; [reflexivity|]. split; [discriminate|reflexivity].
Qed.

Lemma AudioInputCallback_guards inRefCon inBusNumber inNumberFrames env g :
  let out := AudioInputCallback inRefCon inBusNumber inNumberFrames env g in
  out.2 = [ActCheckBus]
  \/ exists rest, out.2 = ActCheckBus :: ActCheckSession :: rest
                  /\ Forall (fun a => is_guard a = false) rest.
Proof.
  cbv zeta. unfold AudioInputCallback.
  destruct (negb (inBusNumber =? 1)); [left; reflexivity|right].
  destruct (if g_isCapturing g then g_tsf g else None) as [tsf|];
    [|exists []; split; [reflexivity|constructor]].
  unfold AllocateAudioBufferList.
  destruct (re_malloc_list env) as [pl|];
    [|eexists; split; [reflexivity|repeat constructor]].
  destruct (re_malloc_data env) as [pd|];
    [|eexists; split; [reflexivity|repeat constructor]].
  unfold DeallocateAudioBufferList, finish. cbn [mBuffers mNumberBuffers].
  assert (Hfree : forall n, match free_buffers [re_rendered_buffer env] 0 n with
                            | Some frees => Forall (fun a => is_guard a = false) frees
                            | None => True
                            end).
  { intros n. destruct n as [|[|n]]; simpl.
    - constructor.
    - destruct (mData (re_rendered_buffer env)); repeat constructor.
    - exact I. }
  specialize (Hfree (Z.to_nat (re_rendered_count env))).
  destruct (free_buffers [re_rendered_buffer env] 0 (Z.to_nat (re_rendered_count env)))
    as [frees|].
  - repeat match goal with
           | |- context [if ?b then _ else _] => destruct b
           | |- context [match convert_frames ?s ?n with _ => _ end] =>
               destruct (convert_frames s n)
           end;
    simpl; (eexists; split; [reflexivity|]);
    repeat (apply Forall_cons; split; [reflexivity|]);
    rewrite ?Forall_app; repeat split;
    repeat (apply Forall_cons; split; [reflexivity|]);
    first [assumption | constructor | idtac].
  - repeat match goal with
           | |- context [if ?b then _ else _] => destruct b
           | |- context [match convert_frames ?s ?n with _ => _ end] =>
               destruct (convert_frames s n)
           end;
    simpl; (eexists; split; [reflexivity|]); repeat constructor.
Qed.

(** C2 (amended). Every invocation of the render callback in which the
    session is not capturing or no delivery channel exists returns [noErr]
    and has no effect: its only actions are the guards, nothing is
    allocated, rendered, converted or enqueued.  The session check is made
    before any work, and only the bus check precedes it: it is the second
    action of every invocation on the input bus and is not made on any
    other bus. *)
Theorem C2_session_guard :
  (forall inRefCon inBusNumber inNumberFrames env g,
      g_isCapturing g = false \/ g_tsf g = None ->
      let out := AudioInputCallback inRefCon inBusNumber inNumberFrames env g in
      out.1 = CbReturn noErr
      /\ out.2 = (if inBusNumber =? 1 then [ActCheckBus; ActCheckSession]
                  else [ActCheckBus])
      /\ forallb is_guard out.2 = true)
  /\ (forall inRefCon inBusNumber inNumberFrames env g,
        let out := AudioInputCallback inRefCon inBusNumber inNumberFrames env g in
        out.2 = [ActCheckBus]
        \/ exists rest, out.2 = ActCheckBus :: ActCheckSession :: rest
                        /\ Forall (fun a => is_guard a = false) rest).
Proof.
  split.
  - intros inRefCon inBusNumber inNumberFrames env g Hoff. cbv zeta.
    unfold AudioInputCallback.
    destruct (inBusNumber =? 1); simpl; [|auto].
    assert (Hnone : (if g_isCapturing g then g_tsf g else None) = None).
    { destruct Hoff as [-> | ->]; [reflexivity|]. destruct (g_isCapturing g); reflexivity. }
    rewrite Hnone. auto.
  - apply AudioInputCallback_guards.
Qed.

Lemma C2_session_guard_witness :
  let out := AudioInputCallback demo_unit 1 2 demo_render_env initial_globals in
  out.1 = CbReturn noErr
  /\ out.2 = (if 1 =? 1 then [ActCheckBus; ActCheckSession] else [ActCheckBus])
  /\ forallb is_guard out.2 = true.
Proof.
  apply (proj1 C2_session_guard demo_unit 1 2 demo_render_env initial_globals).
  left. reflexivity.
Defined.




(** When the render leaves the buffer list as it was allocated (one buffer,
    the same data pointer), every path on which the callback returns frees
    the list and its data exactly once. *)
Lemma AudioInputCallback_releases inRefCon inNumberFrames env g tsf pl pd :
  g_isCapturing g = true -> g_tsf g = Some tsf ->
  re_malloc_list env = Some pl -> re_malloc_data env = Some pd -> pl <> pd ->
  re_rendered_count env = 1 -> mData (re_rendered_buffer env) = Some pd ->
  forall status tr,
    AudioInputCallback inRefCon 1 inNumberFrames env g = (CbReturn status, tr) ->
    frees_of pl tr = 1%nat /\ frees_of pd tr = 1%nat.
Proof.
  intros Hc Ht Hl Hd Hne Hn Hp status tr.
  assert (Hll : Pos.eqb pl pl = true) by apply Pos.eqb_refl.
  assert (Hdd : Pos.eqb pd pd = true) by apply Pos.eqb_refl.
  assert (Hld : Pos.eqb pl pd = false) by (apply Pos.eqb_neq; assumption).
  assert (Hdl : Pos.eqb pd pl = false) by (apply Pos.eqb_neq; congruence).
  unfold AudioInputCallback, AllocateAudioBufferList, DeallocateAudioBufferList, finish.
  cbn [mBuffers mNumberBuffers].
  rewrite Hc, Ht, Hl, Hd, Hn, Hp. simpl. rewrite ?Hp. simpl.
  repeat match goal with
         | |- context [if ?b then _ else _] => destruct b
         | |- context [match convert_frames ?s ?n with _ => _ end] =>
             destruct (convert_frames s n)
         end;
    intros Heq; inversion Heq; subst; clear Heq;
    unfold frees_of; simpl; rewrite ?Hll, ?Hdd, ?Hld, ?Hdl; simpl; auto.
Qed.

Example demo_render_no_buffer_leaks :
  AudioInputCallback demo_unit 1 2 demo_render_env_no_buffer demo_capturing
  = (CbReturn (-1),
     [ActCheckBus; ActCheckSession;
      ActMallocList (Some demo_list_ptr); ActMallocData 8 (Some demo_data_ptr);
      ActRender demo_unit 2 noErr; ActFree demo_list_ptr]).
Proof. reflexivity. Qed.

Example demo_render_new_fails_leaks :
  AudioInputCallback demo_unit 1 2 demo_render_env_new_fails demo_capturing
  = (CbUncaught,
     [ActCheckBus; ActCheckSession;
      ActMallocList (Some demo_list_ptr); ActMallocData 8 (Some demo_data_ptr);
      ActRender demo_unit 2 noErr; ActNewAudioData false]).
Proof. reflexivity. Qed.

(** C8 (failing input). The callback acquires the buffer list and its data
    block, the render succeeds but leaves [mBuffers[0].mData] null, and the
    validation of line 258 rejects the buffer.  The error path frees the
    list; the data block allocated at line 174 is never freed, since
    [DeallocateAudioBufferList] looks for it in the field just found null. *)
Theorem C8_buffer_release_failing :
  re_malloc_list demo_render_env_null_data = Some demo_list_ptr
  /\ re_malloc_data demo_render_env_null_data = Some demo_data_ptr
  /\ AudioInputCallback demo_unit 1 2 demo_render_env_null_data demo_capturing
     = (CbReturn (-1),
        [ActCheckBus; ActCheckSession;
         ActMallocList (Some demo_list_ptr); ActMallocData 8 (Some demo_data_ptr);
         ActRender demo_unit 2 noErr; ActFree demo_list_ptr])
  /\ frees_of demo_list_ptr
       (AudioInputCallback demo_unit 1 2 demo_render_env_null_data demo_capturing).2 = 1%nat
  /\ frees_of demo_data_ptr
       (AudioInputCallback demo_unit 1 2 demo_render_env_null_data demo_capturing).2 = 0%nat.
Proof. repeat split. Qed.

(** [DeallocateAudioBufferList] only frees. *)
Lemma free_buffers_only_free bufs : forall n i frees,
  free_buffers bufs i n = Some frees -> Forall (fun a => is_free a = true) frees.
Proof.
  induction n as [|n IH]; intros i frees; simpl.
  - intros H. inversion H. constructor.
  - destruct (bufs !! i) as [b|]; [|discriminate].
    destruct (free_buffers bufs (S i) n) as [rest|] eqn:Hrest; [|discriminate].
    intros H. inversion H. specialize (IH _ _ Hrest).
    destruct (mData b); [constructor; [reflexivity|assumption]|assumption].
Qed.

Lemma DeallocateAudioBufferList_only_free bl frees :
  DeallocateAudioBufferList bl = Some frees -> Forall (fun a => is_free a = true) frees.
Proof.
  unfold DeallocateAudioBufferList. destruct bl as [[p l]|].
  - destruct (free_buffers (mBuffers l) 0 (Z.to_nat (mNumberBuffers l))) as [fr|] eqn:Hfr;
      [|discriminate].
    intros H. inversion H. apply Forall_app. split.
    + eapply free_buffers_only_free. eassumption.
    + repeat constructor.
  - intros H. inversion H. constructor.
Qed.

(** * Further properties of the module *)

(** ** Device registry *)

Lemma find_device_uid_first h uid pre d post tr :
  Forall (fun x => uid_matches h uid x = false) pre ->
  uid_matches h uid d = true ->
  find_device_uid h uid (pre ++ d :: post) tr
  = (noErr, d, tr ++ map EvGetDeviceUID (pre ++ [d])).
Proof.
  intros Hpre Hd. revert tr. induction Hpre as [|x pre Hx _ IH]; intros tr; simpl.
  - unfold uid_matches in Hd. destruct (hal_device_uid h d) as [status ref].
    apply andb_true_iff in Hd as [Hd ->]. rewrite Hd. reflexivity.
  - unfold uid_matches in Hx. destruct (hal_device_uid h x) as [status ref].
    rewrite IH. rewrite <- app_assoc. simpl.
    destruct ((status =? noErr) && bool_decide (is_Some ref)); simpl in Hx;
      [rewrite Hx|]; reflexivity.
Qed.

Lemma find_device_uid_none h uid ids tr :
  Forall (fun x => uid_matches h uid x = false) ids ->
  find_device_uid h uid ids tr
  = (kAudioHardwareBadDeviceError, kAudioDeviceUnknown, tr ++ map EvGetDeviceUID ids).
Proof.
  intros Hids. revert tr. induction Hids as [|x ids Hx _ IH]; intros tr; simpl.
  - rewrite app_nil_r. reflexivity.
  - unfold uid_matches in Hx. destruct (hal_device_uid h x) as [status ref].
    rewrite IH. rewrite <- app_assoc. simpl.
    destruct ((status =? noErr) && bool_decide (is_Some ref)); simpl in Hx;
      [rewrite Hx|]; reflexivity.
Qed.

(** Every list splits at its first matching device, or has none. *)
Lemma first_match_split h uid ids :
  Forall (fun x => uid_matches h uid x = false) ids
  \/ exists pre d post,
       ids = pre ++ d :: post
       /\ Forall (fun x => uid_matches h uid x = false) pre
       /\ uid_matches h uid d = true.
Proof.
  induction ids as [|x ids IH].
  - left. constructor.
  - destruct (uid_matches h uid x) eqn:Hx.
    + right. exists [], x, ids. repeat split; [constructor|assumption].
    + destruct IH as [Hnone | (pre & d & post & -> & Hpre & Hd)].
      * left. constructor; assumption.
      * right. exists (x :: pre), d, post. repeat split; [constructor|]; assumption.
Qed.

(** X1. When the HAL lists its devices, [GetAudioDeviceIDFromUID] returns
    the first device of the list whose UID reads back as exactly [uid], and
    stops querying there. *)
Theorem GetAudioDeviceIDFromUID_first_match h uid size answer pre d post :
  hal_devices_size h = (noErr, size) -> size <> 0 ->
  hal_devices h = (noErr, answer) ->
  deviceIDs_vector (size / sizeof_AudioDeviceID) answer = pre ++ d :: post ->
  Forall (fun x => uid_matches h uid x = false) pre ->
  uid_matches h uid d = true ->
  GetAudioDeviceIDFromUID h uid
  = (noErr, d, [EvGetDevicesSize; EvGetDevices] ++ map EvGetDeviceUID (pre ++ [d])).
Proof.
  intros Hsize Hnz Hlist Hvec Hpre Hd. unfold GetAudioDeviceIDFromUID.
  rewrite Hsize, Hlist. simpl.
  destruct (Z.eqb_spec size 0) as [?|_]; [contradiction|].
  rewrite Hvec. apply find_device_uid_first; assumption.
Qed.

Lemma GetAudioDeviceIDFromUID_first_match_witness :
  GetAudioDeviceIDFromUID demo_hal "mic"
  = (noErr, 42, [EvGetDevicesSize; EvGetDevices] ++ map EvGetDeviceUID ([41] ++ [42])).
Proof.
  apply (GetAudioDeviceIDFromUID_first_match demo_hal "mic" 8 [41; 42] [41] 42 []).
  - reflexivity.
  - discriminate.
  - reflexivity.
  - reflexivity.
  - repeat constructor.
  - reflexivity.
Defined.

(** X2. When the HAL lists its devices and none has the UID [uid], the
    lookup has asked every device for its UID once, in order, and returns
    [kAudioHardwareBadDeviceError] with the unknown device id. *)
Theorem GetAudioDeviceIDFromUID_not_found h uid size answer :
  hal_devices_size h = (noErr, size) -> size <> 0 ->
  hal_devices h = (noErr, answer) ->
  Forall (fun x => uid_matches h uid x = false)
         (deviceIDs_vector (size / sizeof_AudioDeviceID) answer) ->
  GetAudioDeviceIDFromUID h uid
  = (kAudioHardwareBadDeviceError, kAudioDeviceUnknown,
     [EvGetDevicesSize; EvGetDevices]
     ++ map EvGetDeviceUID (deviceIDs_vector (size / sizeof_AudioDeviceID) answer)).
Proof.
  intros Hsize Hnz Hlist Hnone. unfold GetAudioDeviceIDFromUID.
  rewrite Hsize, Hlist. simpl.
  destruct (Z.eqb_spec size 0) as [?|_]; [contradiction|].
  apply find_device_uid_none. assumption.
Qed.

Lemma GetAudioDeviceIDFromUID_not_found_witness :
  GetAudioDeviceIDFromUID demo_hal "Mic"
  = (kAudioHardwareBadDeviceError, kAudioDeviceUnknown,
     [EvGetDevicesSize; EvGetDevices]
     ++ map EvGetDeviceUID (deviceIDs_vector (8 / sizeof_AudioDeviceID) [41; 42])).
Proof.
  apply (GetAudioDeviceIDFromUID_not_found demo_hal "Mic" 8 [41; 42]).
  - reflexivity.
  - discriminate.
  - reflexivity.
  - repeat constructor.
Defined.

(** X3. A lookup that returns [noErr] either found a device of the list
    whose UID is exactly [uid], or the HAL reported an empty device list, in
    which case the id returned is the unknown device. *)
Theorem GetAudioDeviceIDFromUID_sound h uid d tr :
  GetAudioDeviceIDFromUID h uid = (noErr, d, tr) ->
  (snd (hal_devices_size h) = 0 /\ d = kAudioDeviceUnknown)
  \/ (uid_matches h uid d = true
      /\ In d (deviceIDs_vector (snd (hal_devices_size h) / sizeof_AudioDeviceID)
                                (snd (hal_devices h)))).
Proof.
  unfold GetAudioDeviceIDFromUID.
  destruct (hal_devices_size h) as [status size]. simpl.
  destruct (Z.eqb_spec status noErr) as [-> | Hs]; simpl.
  - destruct (Z.eqb_spec size 0) as [-> | Hnz].
    + intros H. inversion H. left. auto.
    + destruct (hal_devices h) as [status' answer]. simpl.
      destruct (Z.eqb_spec status' noErr) as [-> | Hs']; simpl.
      * intros H. right.
        destruct (first_match_split h uid (deviceIDs_vector (size / sizeof_AudioDeviceID) answer))
          as [Hnone | (pre & x & post & Hvec & Hpre & Hx)].
        -- rewrite find_device_uid_none in H by assumption. discriminate H.
        -- rewrite Hvec in H. rewrite find_device_uid_first in H by assumption.
           inversion H; subst. split; [assumption|].
           rewrite Hvec. apply in_or_app. right. left. reflexivity.
      * intros H. inversion H. congruence.
  - intros H. inversion H. congruence.
Qed.

Lemma GetAudioDeviceIDFromUID_sound_witness :
  (snd (hal_devices_size demo_hal) = 0 /\ 42 = kAudioDeviceUnknown)
  \/ (uid_matches demo_hal "mic" 42 = true
      /\ In 42 (deviceIDs_vector (snd (hal_devices_size demo_hal) / sizeof_AudioDeviceID)
                                 (snd (hal_devices demo_hal)))).
Proof.
  apply (GetAudioDeviceIDFromUID_sound demo_hal "mic" 42
           ([EvGetDevicesSize; EvGetDevices] ++ map EvGetDeviceUID ([41] ++ [42]))).
  reflexivity.
Defined.

Lemma list_device_objects_omap h ids :
  (list_device_objects h ids).1 = omap (device_object h) ids.
Proof.
  induction ids as [|d rest IH]; [reflexivity|].
  simpl. unfold device_object at 1.
  destruct (list_device_objects h rest) as [objs tr]. simpl in IH. subst objs.
  destruct (hal_device_name h d) as [s1 name].
  destruct (negb (s1 =? noErr) || negb (bool_decide (is_Some name))); [reflexivity|].
  destruct (hal_device_uid h d) as [s2 uid].
  destruct (negb (s2 =? noErr) || negb (bool_decide (is_Some uid))); reflexivity.
Qed.

Lemma omap_length_le {A B} (f : A -> option B) (l : list A) :
  (length (omap f l) <= length l)%nat.
Proof.
  induction l as [|x l IH]; [reflexivity|].
  change (omap f (x :: l)) with (match f x with Some y => y :: omap f l | None => omap f l end).
  destruct (f x); simpl; lia.
Qed.

(** X4. When the HAL lists its devices, [ListDevices] returns an array with
    one [{id, name}] object for each device whose name and UID can both be
    read, in the order of the HAL's list; a device whose name or UID cannot
    be read is skipped without failing the enumeration, so the array is
    never longer than the device list. *)
Theorem ListDevices_lists_readable h size answer :
  hal_devices_size h = (noErr, size) -> size <> 0 ->
  hal_devices h = (noErr, answer) ->
  let deviceIDs := deviceIDs_vector (size / sizeof_AudioDeviceID) answer in
  (ListDevices h).1 = Returned (JsArray (omap (device_object h) deviceIDs))
  /\ (length (omap (device_object h) deviceIDs) <= length deviceIDs)%nat
  /\ (forall obj, obj ∈ omap (device_object h) deviceIDs <->
                  exists d, d ∈ deviceIDs /\ device_object h d = Some obj).
Proof.
  intros Hsize Hnz Hlist deviceIDs. split; [|split].
  - unfold ListDevices. rewrite Hsize, Hlist. simpl.
    destruct (Z.eqb_spec size 0) as [?|_]; [contradiction|].
    pose proof (list_device_objects_omap h deviceIDs) as Ho. fold deviceIDs.
    destruct (list_device_objects h deviceIDs) as [objs tr]. simpl in *.
    rewrite Ho. reflexivity.
  - apply omap_length_le.
  - intros obj. apply list_elem_of_omap.
Qed.

Lemma ListDevices_lists_readable_witness :
  let deviceIDs := deviceIDs_vector (8 / sizeof_AudioDeviceID) [41; 42] in
  (ListDevices demo_hal).1 = Returned (JsArray (omap (device_object demo_hal) deviceIDs))
  /\ (length (omap (device_object demo_hal) deviceIDs) <= length deviceIDs)%nat
  /\ (forall obj, obj ∈ omap (device_object demo_hal) deviceIDs <->
                  exists d, d ∈ deviceIDs /\ device_object demo_hal d = Some obj).
Proof.
  apply (ListDevices_lists_readable demo_hal 8 [41; 42]).
  - reflexivity.
  - discriminate.
  - reflexivity.
Defined.

(** X5. An empty device list is an error for [ListDevices], not an empty
    array: when the size query fails or reports zero bytes it throws after
    that single query, and when the list query fails it throws without
    asking any device for its name or UID. *)
Theorem ListDevices_errors h :
  (fst (hal_devices_size h) <> noErr \/ snd (hal_devices_size h) = 0 ->
   ListDevices h = (Thrown (Error_DeviceListSize (fst (hal_devices_size h))),
                    [EvGetDevicesSize]))
  /\ (fst (hal_devices_size h) = noErr -> snd (hal_devices_size h) <> 0 ->
      fst (hal_devices h) <> noErr ->
      ListDevices h = (Thrown (Error_DeviceList (fst (hal_devices h))),
                       [EvGetDevicesSize; EvGetDevices])).
Proof.
  unfold ListDevices. destruct (hal_devices_size h) as [status size]. simpl. split.
  - intros [Hs | ->].
    + destruct (Z.eqb_spec status noErr); [contradiction|reflexivity].
    + rewrite orb_true_r. reflexivity.
  - intros -> Hnz. destruct (hal_devices h) as [status' answer]. simpl. intros Hs.
    destruct (Z.eqb_spec size 0); [contradiction|].
    destruct (Z.eqb_spec status' noErr); [contradiction|reflexivity].
Qed.

Lemma ListDevices_errors_witness :
  ListDevices demo_hal_empty
  = (Thrown (Error_DeviceListSize (fst (hal_devices_size demo_hal_empty))),
     [EvGetDevicesSize]).
Proof.
  apply (proj1 (ListDevices_errors demo_hal_empty)). right. reflexivity.
Defined.

Lemma device_object_uid_matches h d uid name :
  device_object h d = Some (JsObject [("id"%string, uid); ("name"%string, name)]) ->
  uid_matches h uid d = true.
Proof.
  unfold device_object, uid_matches.
  destruct (hal_device_name h d) as [s1 nameRef].
  destruct (negb (s1 =? noErr) || negb (bool_decide (is_Some nameRef))); [discriminate|].
  destruct (hal_device_uid h d) as [s2 uidRef].
  destruct (s2 =? noErr); simpl; [|discriminate].
  destruct (bool_decide (is_Some uidRef)); simpl; [|discriminate].
  intros H. inversion H. apply String.eqb_refl.
Qed.

(** X6. Listing and lookup agree: against the same answers of the HAL, the
    id of every object [ListDevices] returns is resolved by
    [GetAudioDeviceIDFromUID] with [noErr], to a device of the list whose
    UID is that id. *)
Theorem ListDevices_ids_resolve h objs tr uid name :
  ListDevices h = (Returned (JsArray objs), tr) ->
  JsObject [("id"%string, uid); ("name"%string, name)] ∈ objs ->
  exists d tr',
    GetAudioDeviceIDFromUID h uid = (noErr, d, tr')
    /\ uid_matches h uid d = true
    /\ In d (deviceIDs_vector (snd (hal_devices_size h) / sizeof_AudioDeviceID)
                              (snd (hal_devices h))).
Proof.
  unfold ListDevices, GetAudioDeviceIDFromUID.
  destruct (hal_devices_size h) as [status size]. simpl.
  destruct (negb (status =? noErr) || (size =? 0)); [discriminate|].
  destruct (hal_devices h) as [status' answer]. simpl.
  destruct (negb (status' =? noErr)); [discriminate|].
  set (ids := deviceIDs_vector (size / sizeof_AudioDeviceID) answer).
  pose proof (list_device_objects_omap h ids) as Ho.
  destruct (list_device_objects h ids) as [objs' tr0]. simpl in Ho.
  intros H Hin. inversion H; subst objs tr. clear H. rewrite Ho in Hin.
  apply list_elem_of_omap in Hin as (d0 & Hd0 & Hobj).
  apply device_object_uid_matches in Hobj.
  destruct (first_match_split h uid ids) as [Hnone | (pre & d & post & Hvec & Hpre & Hd)].
  - rewrite Forall_forall in Hnone.
    rewrite (Hnone d0 Hd0) in Hobj. discriminate.
  - exists d. eexists. rewrite Hvec. rewrite find_device_uid_first by assumption.
    split; [reflexivity|]. split; [assumption|].
    apply in_or_app. right. left. reflexivity.
Qed.

Lemma ListDevices_ids_resolve_witness :
  exists d tr',
    GetAudioDeviceIDFromUID demo_hal "mic" = (noErr, d, tr')
    /\ uid_matches demo_hal "mic" d = true
    /\ In d (deviceIDs_vector (snd (hal_devices_size demo_hal) / sizeof_AudioDeviceID)
                              (snd (hal_devices demo_hal))).
Proof.
  apply (ListDevices_ids_resolve demo_hal
           [JsObject [("id"%string, "out"%string); ("name"%string, "Speaker"%string)];
            JsObject [("id"%string, "mic"%string); ("name"%string, "Microphone"%string)]]
           [EvGetDevicesSize; EvGetDevices; EvGetDeviceName 41; EvGetDeviceUID 41;
            EvGetDeviceName 42; EvGetDeviceUID 42]
           "mic" "Microphone").
  - reflexivity.
  - apply list_elem_of_In. right. left. reflexivity.
Defined.

(** ** Capture session *)

(** X7. On an idle session [StartCapture] returns [true] exactly when its
    arguments are a string and a function and every fallible configuration
    step succeeds; it then holds the created unit, the created channel and
    the resolved device id and sets the capturing flag.  The statuses of
    disabling output and of reading the format back play no part: their
    failure never fails the call. *)
Theorem StartCapture_succeeds_iff info env g :
  idle g ->
  ((StartCapture info env g).1.1 = Returned (JsBoolean true)
   <-> arguments_ok info = true /\ configuration_succeeds info env = true)
  /\ ((StartCapture info env g).1.1 = Returned (JsBoolean true) ->
      exists u t,
        se_instance_new env = (noErr, Some u) /\ se_tsf_new env = Some t
        /\ (StartCapture info env g).1.2
           = {| g_isCapturing := true; g_audioUnit := Some u;
                g_targetDeviceID :=
                  (GetAudioDeviceIDFromUID (se_hal env) (Utf8Value (info_at info 0))).1.2;
                g_tsf := Some t |}).
Proof.
  intros Hidle.
  pose proof (StartCapture_from_idle info env g Hidle) as H. cbv zeta in H.
  destruct (arguments_ok info && configuration_succeeds info env) eqn:Hok.
  - destruct H as (u & t & Hu & Ht & Hr & Hg & _).
    apply andb_true_iff in Hok. split.
    + split; [intros _; assumption|intros _; assumption].
    + intros _. exists u, t. auto.
  - destruct H as (e & Hr & _). split.
    + split.
      * rewrite Hr. discriminate.
      * intros [Ha Hc]. rewrite Ha, Hc in Hok. discriminate.
    + rewrite Hr. discriminate.
Qed.

Lemma StartCapture_succeeds_iff_witness :
  (StartCapture demo_info demo_start_env initial_globals).1.1 = Returned (JsBoolean true)
  <-> arguments_ok demo_info = true /\ configuration_succeeds demo_info demo_start_env = true.
Proof.
  apply (proj1 (StartCapture_succeeds_iff demo_info demo_start_env initial_globals
                  (conj eq_refl (conj eq_refl eq_refl)))).
Defined.

(** X8. [StartCapture] goes no further than the device lookup when the
    lookup fails or leaves the unknown device id, also when the lookup
    itself reported [noErr] (an empty device list): it throws the
    device-not-found error having made only HAL queries, and the target
    device id holds what the lookup left. *)
Theorem StartCapture_device_not_found info env g :
  arguments_ok info = true -> g_isCapturing g = false -> g_tsf g = None ->
  let uid := Utf8Value (info_at info 0) in
  let lookup := GetAudioDeviceIDFromUID (se_hal env) uid in
  lookup.1.1 <> noErr \/ lookup.1.2 = kAudioDeviceUnknown ->
  StartCapture info env g
  = (Thrown (Error_DeviceNotFound uid), set_targetDeviceID lookup.1.2 g, lookup.2)
  /\ Forall (fun e => is_query e = true) lookup.2.
Proof.
  intros Hargs Hc Ht uid lookup Hfail. split.
  - unfold StartCapture. unfold arguments_ok in Hargs.
    apply negb_true_iff in Hargs. rewrite Hargs, Hc, Ht. simpl.
    subst lookup uid.
    destruct (GetAudioDeviceIDFromUID (se_hal env) (Utf8Value (info_at info 0)))
      as [[status dev] tr]. simpl in *.
    destruct Hfail as [Hs | ->].
    + destruct (Z.eqb_spec status noErr); [contradiction|reflexivity].
    + rewrite orb_true_r. reflexivity.
  - apply GetAudioDeviceIDFromUID_queries.
Qed.

Lemma StartCapture_device_not_found_witness :
  StartCapture demo_info demo_start_env_no_device initial_globals
  = (Thrown (Error_DeviceNotFound "mic"),
     set_targetDeviceID kAudioDeviceUnknown initial_globals, [EvGetDevicesSize])
  /\ Forall (fun e => is_query e = true) [EvGetDevicesSize].
Proof.
  apply (StartCapture_device_not_found demo_info demo_start_env_no_device initial_globals).
  - reflexivity.
  - reflexivity.
  - reflexivity.
  - right. reflexivity.
Defined.

(** X9. [StartCapture] never reads the target device id left by an earlier
    call: started from globals that differ only in that field it returns the
    same result and makes the same platform calls, and once it has passed
    its entry guards it ends in the same globals. *)
Theorem StartCapture_ignores_stale_target info env g d :
  let out := StartCapture info env g in
  let out' := StartCapture info env (set_targetDeviceID d g) in
  out'.1.1 = out.1.1
  /\ out'.2 = out.2
  /\ out'.1.2 = (if arguments_ok info && negb (g_isCapturing g)
                    && negb (bool_decide (is_Some (g_tsf g)))
                 then out.1.2 else set_targetDeviceID d out.1.2).
Proof.
  cbv zeta. unfold StartCapture, arguments_ok.
  destruct ((length info <? 2)%nat || negb (IsString (info_at info 0))
            || negb (IsFunction (info_at info 1))); simpl; [auto|].
  destruct (g_isCapturing g); simpl; [auto|].
  destruct (bool_decide (is_Some (g_tsf g))); simpl; [auto|].
  repeat split.
Qed.

(** X10. A stopped session can be started again: after [StopCapture] on
    any reachable state, a [StartCapture] with a string and a function whose
    configuration steps all succeed returns [true] and holds the newly
    created unit and channel. *)
Theorem StopCapture_then_StartCapture senv info env g :
  reachable g ->
  arguments_ok info = true -> configuration_succeeds info env = true ->
  let stopped := (StopCapture senv g).1.2 in
  idle stopped
  /\ exists u t,
       se_instance_new env = (noErr, Some u) /\ se_tsf_new env = Some t
       /\ (StartCapture info env stopped).1.1 = Returned (JsBoolean true)
       /\ g_isCapturing (StartCapture info env stopped).1.2 = true
       /\ g_audioUnit (StartCapture info env stopped).1.2 = Some u
       /\ g_tsf (StartCapture info env stopped).1.2 = Some t.
Proof.
  intros Hr Hargs Hconf stopped.
  assert (Hidle : idle stopped).
  { subst stopped. rewrite StopCapture_clears by (apply reachable_invariant; assumption).
    repeat split. }
  split; [assumption|].
  pose proof (StartCapture_from_idle info env stopped Hidle) as H. cbv zeta in H.
  rewrite Hargs, Hconf in H. simpl in H.
  destruct H as (u & t & Hu & Ht & Hres & Hg & _).
  exists u, t. rewrite Hg. simpl. repeat split; assumption.
Qed.

Lemma StopCapture_then_StartCapture_witness :
  let stopped := (StopCapture demo_stop_env demo_capturing).1.2 in
  idle stopped
  /\ exists u t,
       se_instance_new demo_start_env = (noErr, Some u)
       /\ se_tsf_new demo_start_env = Some t
       /\ (StartCapture demo_info demo_start_env stopped).1.1 = Returned (JsBoolean true)
       /\ g_isCapturing (StartCapture demo_info demo_start_env stopped).1.2 = true
       /\ g_audioUnit (StartCapture demo_info demo_start_env stopped).1.2 = Some u
       /\ g_tsf (StartCapture demo_info demo_start_env stopped).1.2 = Some t.
Proof.
  apply (StopCapture_then_StartCapture demo_stop_env demo_info demo_start_env demo_capturing).
  - exists [OpStartCapture demo_info demo_start_env]. reflexivity.
  - reflexivity.
  - reflexivity.
Defined.

(** ** Handle discipline over histories *)

Lemma monitor_app r a b :
  monitor r (a ++ b) = match monitor r a with Some r' => monitor r' b | None => None end.
Proof.
  revert r. induction a as [|e a IH]; intros r; simpl; [reflexivity|].
  destruct (monitor_step r e); [apply IH|reflexivity].
Qed.

Lemma monitor_queries r tr :
  Forall (fun e => is_query e = true) tr -> monitor r (map OpCall tr) = Some r.
Proof.
  induction 1 as [|e tr He _ IH]; simpl; [reflexivity|].
  destruct e; try discriminate He; simpl; assumption.
Qed.

Lemma running_queries run tr :
  Forall (fun e => is_query e = true) tr ->
  fold_left running_step (map OpCall tr) run = run.
Proof.
  induction 1 as [|e tr He _ IH]; simpl; [reflexivity|].
  destruct e; try discriminate He; simpl; assumption.
Qed.

Lemma queries_create_nothing tr jsCallback t :
  Forall (fun e => is_query e = true) tr -> ~ In (EvTsfNew jsCallback (Some t)) tr.
Proof.
  intros Hq Hin. rewrite Forall_forall in Hq.
  apply list_elem_of_In in Hin. specialize (Hq _ Hin). discriminate Hq.
Qed.

Lemma list_device_objects_queries h ids :
  Forall (fun e => is_query e = true) (list_device_objects h ids).2.
Proof.
  induction ids as [|d rest IH]; simpl; [constructor|].
  destruct (list_device_objects h rest) as [objs tr]. simpl in IH.
  destruct (hal_device_name h d) as [s1 name].
  destruct (negb (s1 =? noErr) || negb (bool_decide (is_Some name))); simpl;
    [constructor; [reflexivity|assumption]|].
  destruct (hal_device_uid h d) as [s2 uid].
  destruct (negb (s2 =? noErr) || negb (bool_decide (is_Some uid))); simpl;
    repeat (constructor; [reflexivity|]); assumption.
Qed.

Lemma ListDevices_queries h : Forall (fun e => is_query e = true) (ListDevices h).2.
Proof.
  unfold ListDevices.
  destruct (hal_devices_size h) as [status size].
  destruct (negb (status =? noErr) || (size =? 0)); [repeat constructor|].
  destruct (hal_devices h) as [status' answer].
  destruct (negb (status' =? noErr)); [repeat constructor|].
  pose proof (list_device_objects_queries h
                (deviceIDs_vector (size / sizeof_AudioDeviceID) answer)) as Hq.
  destruct (list_device_objects h _) as [objs tr]. simpl in *.
  repeat (constructor; [reflexivity|]). assumption.
Qed.

Ltac monitor_run :=
  repeat (progress (simpl;
                    unfold initial_thread_count;
                    rewrite ?Pos.eqb_refl;
                    repeat match goal with
                           | H : (_ =? _) = _ |- _ => rewrite H
                           end)).

Ltac thread_solve :=
  simpl; unfold initial_thread_count; rewrite ?Pos.eqb_refl;
  repeat match goal with
         | |- context [Pos.eqb ?a ?b] => destruct (Pos.eqb a b)
         | |- context [?x =? ?y] => destruct (x =? y)
         end;
  simpl; try lia; auto.

Lemma In_OpCall e tr : In (OpCall e) (map OpCall tr) -> In e tr.
Proof.
  intros Hin. apply in_map_iff in Hin as (e' & Heq & Hin). inversion Heq; subst. assumption.
Qed.

Ltac created_leaf Hq :=
  let cb := fresh "cb" in let t := fresh "t" in let Hin := fresh "Hin" in
  intros cb t Hin; rewrite ?in_app_iff in Hin; simpl in Hin;
  repeat match goal with
         | H : _ \/ _ |- _ => destruct H
         | H : False |- _ => destruct H
         | H : In (OpCall _) (map OpCall _) |- _ =>
             apply In_OpCall in H; apply (queries_create_nothing _ _ _ Hq) in H
         | H : OpCall _ = OpCall _ |- _ => inversion H; subst; clear H
         end.

Ltac leaf Hq :=
  rewrite ?map_app, ?monitor_app, ?fold_left_app;
  rewrite ?(monitor_queries _ _ Hq), ?(running_queries _ _ Hq);
  monitor_run;
  eexists; split; [reflexivity|]; split;
  [ split; [reflexivity|]; split;
    [ let u := fresh "u" in let H := fresh "H" in
      intros u H; inversion H; subst; auto
    | let t := fresh "t" in let H := fresh "H" in
      intros t H; inversion H; subst; thread_solve ]
  | split;
    [ let t := fresh "t" in let H := fresh "H" in intros t H; thread_solve
    | created_leaf Hq; thread_solve ] ].

Lemma StartCapture_step info env g r run :
  session_invariant g -> consistent r run g ->
  step_ok r run g (map OpCall (StartCapture info env g).2) (StartCapture info env g).1.2.
Proof.
  intros Hinv (Hheld & Hrun & Hthr). unfold step_ok.
  destruct (g_isCapturing g) eqn:Hc.
  { rewrite StartCapture_while_capturing by assumption. simpl.
    exists r. repeat split; auto; try apply Hrun; try assumption.
    intros cb t []. }
  destruct (session_invariant_idle g Hinv Hc) as (_ & Hu & Ht).
  assert (Hnone : run = None).
  { destruct run as [u|]; [|reflexivity]. destruct (Hrun u eq_refl). congruence. }
  subst run. destruct r as [held thr]. simpl in Hheld. rewrite Hu in Hheld. subst held.
  destruct g as [c u0 d t0]. simpl in Hc, Hu, Ht. subst. clear Hrun Hthr Hinv.
  unfold StartCapture, consistent. simpl.
  pose proof (GetAudioDeviceIDFromUID_queries (se_hal env) (Utf8Value (info_at info 0))) as Hq.
  destruct (GetAudioDeviceIDFromUID (se_hal env) (Utf8Value (info_at info 0)))
    as [[status dev] tr0]. simpl in Hq.
  destruct (se_instance_new env) as [st_new out_new].
  destruct ((length info <? 2)%nat || negb (IsString (info_at info 0))
            || negb (IsFunction (info_at info 1))); simpl.
  { exists {| held_unit := None; threads := thr |}. repeat split; auto; try discriminate.
    intros cb t []. }
  destruct (negb (status =? noErr) || (dev =? kAudioDeviceUnknown)); simpl; [leaf Hq|].
  destruct (se_find_component env); simpl; [|leaf Hq].
  destruct out_new as [u|]; destruct (st_new =? noErr) eqn:E4; simpl;
    try (leaf Hq; fail).
  destruct (se_enable_input env =? noErr) eqn:E5; simpl; [|leaf Hq].
  destruct (se_set_device env =? noErr) eqn:E6; simpl; [|leaf Hq].
  destruct (se_set_format env =? noErr) eqn:E7; simpl; [|leaf Hq].
  destruct (se_set_callback env =? noErr) eqn:E8; simpl; [|leaf Hq].
  destruct (se_initialize env =? noErr) eqn:E9; simpl; [|leaf Hq].
  destruct (se_tsf_new env) as [t|] eqn:E10; simpl; [|leaf Hq].
  destruct (se_start env =? noErr) eqn:E11; simpl; leaf Hq.
Qed.


Lemma StopCapture_step env g r run :
  session_invariant g -> consistent r run g ->
  step_ok r run g (map OpCall (StopCapture env g).2) (StopCapture env g).1.2.
Proof.
  intros [Hset Hclear] (Hheld & Hrun & Hthr). unfold step_ok, consistent.
  destruct r as [held thr]. destruct g as [c u d t]. simpl in *. subst held.
  unfold StopCapture. simpl. destruct c; simpl.
  - destruct (Hset eq_refl) as [[u' ->] [t' ->]]. simpl.
    pose proof (Hthr t' eq_refl) as Ht'.
    assert (Hle : (1 <=? thr t') = true) by (apply Z.leb_le; lia).
    assert (Hstop : (if is_handle run u' then None else run) = None).
    { destruct run as [u0|]; [|reflexivity].
      destruct (Hrun u0 eq_refl) as [_ Hu0]. inversion Hu0; subst.
      simpl. rewrite Pos.eqb_refl. reflexivity. }
    repeat (rewrite Pos.eqb_refl; simpl). rewrite Hle, Hstop.
    eexists. split; [reflexivity|]. split; [|split].
    + split; [reflexivity|]. split; [intros u0 [=]|intros t0 [=]].
    + intros t0 H0. simpl. destruct (Pos.eqb_spec t' t0) as [<- | Hne]; simpl; [|assumption].
      destruct (st_tsf_release env =? napi_ok); lia.
    + intros cb t0 Hin. simpl in Hin.
      repeat match goal with
             | H : _ \/ _ |- _ => destruct H
             | H : False |- _ => destruct H
             | H : OpCall _ = OpCall _ |- _ => inversion H; subst; clear H
             end.
  - destruct (Hclear eq_refl) as [-> ->]. simpl.
    eexists. split; [reflexivity|]. split; [|split].
    + split; [reflexivity|]. split; [assumption|intros t0 [=]].
    + auto.
    + intros cb t0 [].
Qed.

Lemma ListDevices_step h g r run :
  consistent r run g ->
  step_ok r run g (map OpCall (ListDevices h).2) g.
Proof.
  intros Hcons. pose proof (ListDevices_queries h) as Hq.
  exists r. rewrite (monitor_queries _ _ Hq), (running_queries _ _ Hq).
  split; [reflexivity|]. split; [assumption|]. split; [auto|].
  intros cb t Hin. apply In_OpCall in Hin.
  exfalso. exact (queries_create_nothing _ _ _ Hq Hin).
Qed.

Lemma frees_call_ok inRefCon g frees :
  Forall (fun a => is_free a = true) frees -> Forall (callback_call_ok inRefCon g) frees.
Proof.
  intros Hf. eapply Forall_impl; [exact Hf|].
  intros a Ha. destruct a; try discriminate Ha. exact I.
Qed.

Lemma AudioInputCallback_calls inRefCon inBusNumber inNumberFrames env g :
  Forall (callback_call_ok inRefCon g)
         (AudioInputCallback inRefCon inBusNumber inNumberFrames env g).2.
Proof.
  unfold AudioInputCallback.
  destruct (negb (inBusNumber =? 1)); [repeat constructor|].
  destruct (g_isCapturing g) eqn:Hc; [|repeat constructor].
  destruct (g_tsf g) as [tsf|] eqn:Ht; [|repeat constructor].
  unfold AllocateAudioBufferList.
  destruct (re_malloc_list env) as [pl|]; [|repeat constructor].
  destruct (re_malloc_data env) as [pd|]; [|repeat constructor].
  pose proof (DeallocateAudioBufferList_only_free
                (Some (pl, {| mNumberBuffers := re_rendered_count env;
                              mBuffers := [re_rendered_buffer env] |}))) as Hfree.
  cbn [mNumberBuffers]. unfold finish.
  destruct (DeallocateAudioBufferList _) as [frees|].
  - pose proof (frees_call_ok inRefCon g frees (Hfree frees eq_refl)) as Hok.
    repeat match goal with
           | |- context [if ?b then _ else _] => destruct b
           | |- context [match convert_frames ?s ?n with _ => _ end] =>
               destruct (convert_frames s n)
           end;
    simpl; rewrite ?Forall_app; repeat split;
    repeat (apply Forall_cons; split; [first [exact I | reflexivity | assumption]|]);
    first [assumption | constructor].
  - repeat match goal with
           | |- context [if ?b then _ else _] => destruct b
           | |- context [match convert_frames ?s ?n with _ => _ end] =>
               destruct (convert_frames s n)
           end;
    simpl; rewrite ?Forall_app; repeat split;
    repeat (apply Forall_cons; split; [first [exact I | reflexivity | assumption]|]);
    constructor.
Qed.

Lemma monitor_callback r inRefCon g tr :
  held_unit r = Some inRefCon ->
  (forall t, g_tsf g = Some t -> threads r t = 2) ->
  Forall (callback_call_ok inRefCon g) tr ->
  monitor r (map CbCall tr) = Some r
  /\ forall run, fold_left running_step (map CbCall tr) run = run.
Proof.
  intros Hheld Hthr. induction 1 as [|a tr Ha _ IH]; [split; reflexivity|].
  destruct IH as [IHm IHr].
  assert (Hstep : monitor_step r (CbCall a) = Some r).
  { destruct a; simpl in *; try reflexivity.
    - subst u. rewrite Hheld. simpl. rewrite Pos.eqb_refl. reflexivity.
    - rewrite (Hthr _ Ha). reflexivity. }
  split.
  - cbn [map monitor]. rewrite Hstep. assumption.
  - intros run. cbn [map fold_left].
    change (running_step run (CbCall a)) with run. apply IHr.
Qed.

Lemma AudioInputCallback_step inRefCon inBusNumber inNumberFrames env g r run :
  consistent r run g ->
  is_handle run inRefCon = true ->
  step_ok r run g
          (map CbCall (AudioInputCallback inRefCon inBusNumber inNumberFrames env g).2) g.
Proof.
  intros (Hheld & Hrun & Hthr) Hcb.
  destruct run as [u|]; [|discriminate]. simpl in Hcb. apply Pos.eqb_eq in Hcb. subst u.
  destruct (Hrun inRefCon eq_refl) as [Hc Hu].
  destruct (monitor_callback r inRefCon g _ ltac:(congruence) Hthr
              (AudioInputCallback_calls inRefCon inBusNumber inNumberFrames env g))
    as [Hm Hr].
  exists r. rewrite Hm, Hr. split; [reflexivity|].
  split; [split; [assumption|split; assumption]|].
  split; [auto|].
  intros cb t Hin. apply in_map_iff in Hin as (a & Heq & _). discriminate Heq.
Qed.

Lemma op_step op g r run :
  session_invariant g -> consistent r run g ->
  match op with
  | OpRenderCallback inRefCon _ _ _ => is_handle run inRefCon
  | _ => true
  end = true ->
  step_ok r run g (op_calls op g) (run_op op g).
Proof.
  intros Hinv Hcons Hcb. destruct op as [h | info env | env | inRefCon b n env]; simpl.
  - apply ListDevices_step. assumption.
  - apply StartCapture_step; assumption.
  - apply StopCapture_step; assumption.
  - apply AudioInputCallback_step; assumption.
Qed.

Lemma history_monitor ops : forall g r run,
  session_invariant g -> consistent r run g ->
  callbacks_while_running ops g run = true ->
  exists r',
    monitor r (history_calls ops g) = Some r'
    /\ consistent r' (fold_left running_step (history_calls ops g) run) (run_ops ops g)
    /\ (forall t, 1 <= threads r t -> 1 <= threads r' t)
    /\ (forall jsCallback t,
          In (OpCall (EvTsfNew jsCallback (Some t))) (history_calls ops g) ->
          1 <= threads r' t).
Proof.
  induction ops as [|op ops IH]; intros g r run Hinv Hcons Hwf.
  - exists r. simpl. split; [reflexivity|]. split; [assumption|]. split; [auto|].
    intros cb t [].
  - cbn [callbacks_while_running] in Hwf. apply andb_true_iff in Hwf as [Hcb Hwf].
    destruct (op_step op g r run Hinv Hcons Hcb) as (r1 & Hm1 & Hc1 & Hmono1 & Hnew1).
    destruct (IH (run_op op g) r1 _ (run_op_invariant op g Hinv) Hc1 Hwf)
      as (r2 & Hm2 & Hc2 & Hmono2 & Hnew2).
    exists r2. cbn [history_calls run_ops fold_left].
    rewrite monitor_app, Hm1, fold_left_app.
    split; [assumption|]. split; [assumption|]. split; [auto|].
    intros cb t Hin. apply in_app_iff in Hin as [Hin | Hin]; eauto.
Qed.

(** X11. In every history of exported operations and render callbacks,
    each taken as one atomic step from the initial state, in which the
    platform invokes the callback only for a running unit and with that unit
    as its [inRefCon], the module keeps handle discipline.  It never creates
    a hardware unit while it holds one; every call on a unit, the callback's
    [AudioUnitRender] included, addresses the unit it holds at that moment,
    so none is used or disposed of after it was passed to
    [AudioComponentInstanceDispose]; every [Acquire], [Release] and
    [NonBlockingCall] addresses a channel that exists; when the history ends
    the unit held is the one in [g_audioUnit] and the channel in [g_tsf] has
    a thread count of 2.  And every channel the history created still has a
    thread count of at least 1: the initial count of 1 and the [Acquire] are
    answered by a single [Release], so no channel is ever finalised. *)
Theorem history_handle_discipline (ops : list operation) :
  callbacks_while_running ops initial_globals None = true ->
  exists r,
    monitor no_resources (history_calls ops initial_globals) = Some r
    /\ held_unit r = g_audioUnit (run_ops ops initial_globals)
    /\ (forall t, g_tsf (run_ops ops initial_globals) = Some t -> threads r t = 2)
    /\ (forall jsCallback t,
          In (OpCall (EvTsfNew jsCallback (Some t))) (history_calls ops initial_globals) ->
          1 <= threads r t).
Proof.
  intros Hwf.
  destruct (history_monitor ops initial_globals no_resources None) as (r & Hm & Hc & _ & Hnew).
  - apply idle_invariant. repeat split.
  - split; [reflexivity|]. split; intros ? [=].
  - assumption.
  - destruct Hc as (Hheld & _ & Hthr). exists r. auto.
Qed.

Lemma history_handle_discipline_witness :
  exists r,
    monitor no_resources
            (history_calls [OpStartCapture demo_info demo_start_env;
                            OpRenderCallback demo_unit 1 2 demo_render_env;
                            OpStopCapture demo_stop_env;
                            OpStartCapture demo_info demo_start_env] initial_globals) = Some r
    /\ held_unit r
       = g_audioUnit (run_ops [OpStartCapture demo_info demo_start_env;
                               OpRenderCallback demo_unit 1 2 demo_render_env;
                               OpStopCapture demo_stop_env;
                               OpStartCapture demo_info demo_start_env] initial_globals)
    /\ (forall t, g_tsf (run_ops [OpStartCapture demo_info demo_start_env;
                               OpRenderCallback demo_unit 1 2 demo_render_env;
                               OpStopCapture demo_stop_env;
                               OpStartCapture demo_info demo_start_env] initial_globals) = Some t ->
                  threads r t = 2)
    /\ (forall jsCallback t,
          In (OpCall (EvTsfNew jsCallback (Some t)))
             (history_calls [OpStartCapture demo_info demo_start_env;
                             OpRenderCallback demo_unit 1 2 demo_render_env;
                             OpStopCapture demo_stop_env;
                             OpStartCapture demo_info demo_start_env] initial_globals) ->
          1 <= threads r t).
Proof.
  apply (history_handle_discipline [OpStartCapture demo_info demo_start_env;
                                    OpRenderCallback demo_unit 1 2 demo_render_env;
                                    OpStopCapture demo_stop_env;
                                    OpStartCapture demo_info demo_start_env]).
  vm_compute. reflexivity.
Defined.

(** One session, started and stopped: the unit is gone, the channel keeps
    one thread although no handle to it is left. *)
Example demo_session_leaves_channel :
  exists r,
    monitor no_resources
            (history_calls [OpStartCapture demo_info demo_start_env;
                            OpStopCapture demo_stop_env] initial_globals) = Some r
    /\ held_unit r = None
    /\ threads r demo_channel = 1
    /\ g_tsf (run_ops [OpStartCapture demo_info demo_start_env;
                       OpStopCapture demo_stop_env] initial_globals) = None.
Proof. eexists. split; [reflexivity|]. repeat split. Qed.

Example monitor_rejects_misuse :
  monitor no_resources [OpCall (EvDispose demo_unit noErr)] = None
  /\ monitor no_resources
             [OpCall (EvInstanceNew noErr (Some demo_unit));
              OpCall (EvDispose demo_unit noErr);
              OpCall (EvStop demo_unit noErr)] = None
  /\ monitor no_resources
             [OpCall (EvInstanceNew noErr (Some demo_unit));
              OpCall (EvInstanceNew noErr (Some demo_unit))] = None
  /\ monitor no_resources
             [OpCall (EvInstanceNew noErr (Some demo_unit));
              CbCall (ActRender (Pos.succ demo_unit) 2 noErr)] = None
  /\ monitor no_resources
             [OpCall (EvTsfNew demo_callback (Some demo_channel));
              OpCall (EvTsfRelease demo_channel napi_ok);
              OpCall (EvTsfRelease demo_channel napi_ok)] = None
  /\ monitor no_resources
             [OpCall (EvTsfNew demo_callback (Some demo_channel));
              OpCall (EvTsfRelease demo_channel napi_ok);
              CbCall (ActEnqueue demo_channel [] napi_ok)] = None.
Proof. repeat split. Qed.

(** ** The downmix *)

Lemma canon_injective z z' e :
  Z.abs z < 2 ^ prec -> Z.abs z' < 2 ^ prec -> e <= 0 ->
  canon z e = canon z' e -> z = z'.
Proof.
  intros Hz Hz' He Heq.
  destruct (SF2Q_canon z e Hz He) as (q & Hq & Hv).
  destruct (SF2Q_canon z' e Hz' He) as (q' & Hq' & Hv').
  rewrite Heq, Hq' in Hq. inversion Hq; subst q'.
  rewrite Hv in Hv'. unfold Qeq in Hv'. simpl in Hv'.
  apply Z.mul_cancel_r in Hv'; [assumption|lia].
Qed.

(** X12. The sample of a frame depends on the sum of its two channels and
    on nothing else, and loses nothing of that sum: two int16 frames give
    the same binary32 sample exactly when their channel sums are equal.  In
    particular swapping left and right does not change the sample. *)
Theorem mix_sample_determined_by_sum l r l' r' :
  is_int16 l -> is_int16 r -> is_int16 l' -> is_int16 r' ->
  (mix_sample l r = mix_sample l' r' <-> l + r = l' + r')
  /\ mix_sample l r = mix_sample r l.
Proof.
  intros Hl Hr Hl' Hr'.
  rewrite !mix_sample_canon by assumption. split; [split|].
  - apply canon_injective; unfold is_int16, prec in *; simpl; lia.
  - intros ->. reflexivity.
  - f_equal. lia.
Qed.

Lemma mix_sample_determined_by_sum_witness :
  (mix_sample 100 (-40) = mix_sample 10 50 <-> 100 + -40 = 10 + 50)
  /\ mix_sample 100 (-40) = mix_sample (-40) 100.
Proof.
  apply (mix_sample_determined_by_sum 100 (-40) 10 50); unfold is_int16; lia.
Defined.

Lemma canon_double z e :
  Z.abs z < 2 ^ (prec - 1) -> -124 <= e <= emax - prec ->
  canon (2 * z) (e - 1) = canon z e.
Proof.
  intros Hz He.
  rewrite <- (normalize_shifted z 1 e) by (unfold prec, emax in *; simpl in *; lia).
  replace (z * 2 ^ 1) with (2 * z * 2 ^ 0) by (simpl; lia).
  replace (e - 1) with (e - 1 - 0) at 2 by lia.
  symmetry. apply normalize_shifted; unfold prec, emax in *; simpl in *; lia.
Qed.

(** X13. A frame whose two channels carry the same int16 value converts to
    exactly that value divided by 32768: a mono signal recorded on both
    channels passes through the downmix unchanged. *)
Theorem mix_sample_equal_channels l :
  is_int16 l ->
  mix_sample l l = fdiv (float_of_int16 l) f32768
  /\ exists q, SF2Q (mix_sample l l) = Some q /\ (q == l # 32768)%Q.
Proof.
  intros Hl. rewrite mix_sample_canon by assumption.
  assert (Hl24 : Z.abs l < 2 ^ prec) by (unfold is_int16, prec in *; simpl; lia).
  rewrite float_of_int16_canon, fdiv_32768_canon by assumption.
  replace (l + l) with (2 * l) by lia.
  change (-16) with (-15 - 1).
  rewrite canon_double by (unfold is_int16, prec, emax in *; simpl; lia).
  split; [reflexivity|].
  destruct (SF2Q_canon l (-15) Hl24 ltac:(lia)) as (q & Hq & Hv).
  exists q. split; [assumption|]. rewrite Hv. reflexivity.
Qed.

Lemma mix_sample_equal_channels_witness :
  mix_sample (-32768) (-32768) = fdiv (float_of_int16 (-32768)) f32768
  /\ exists q, SF2Q (mix_sample (-32768) (-32768)) = Some q /\ (q == -32768 # 32768)%Q.
Proof. apply (mix_sample_equal_channels (-32768)). unfold is_int16. lia. Defined.

(** ** The converter on whole buffers *)

(** What a completed run of the loop has done, read off its result. *)
Lemma convert_loop_sound (samples : list Z) (N : Z) :
  0 <= N -> 2 * N <= 2 ^ 32 ->
  forall (n : nat) (i : Z) (data out : list float32),
    0 <= i -> i + Z.of_nat n = N -> length data = Z.to_nat N ->
    convert_loop samples n i data = Some out ->
    length out = Z.to_nat N
    /\ (forall j, 0 <= j < i -> out !! Z.to_nat j = data !! Z.to_nat j)
    /\ (forall j, i <= j < N ->
          exists l r, samples !! Z.to_nat (2 * j) = Some l
                      /\ samples !! Z.to_nat (2 * j + 1) = Some r
                      /\ out !! Z.to_nat j = Some (mix_sample l r)).
Proof.
  intros HN Hfit n. induction n as [|n IH]; intros i data out Hi Hn Hdata Hrun.
  - simpl in Hrun. inversion Hrun; subst out. repeat split; auto. intros j Hj. lia.
  - assert (Hw0 : wrap32 (i * 2) = 2 * i) by (rewrite wrap32_small; lia).
    assert (Hw1 : wrap32 (wrap32 (i * 2) + 1) = 2 * i + 1)
      by (rewrite Hw0, wrap32_small; lia).
    cbn [convert_loop] in Hrun. rewrite Hw1, Hw0 in Hrun.
    destruct (samples !! Z.to_nat (2 * i)) as [l|] eqn:Hl; [|discriminate].
    destruct (samples !! Z.to_nat (2 * i + 1)) as [r|] eqn:Hr; [|discriminate].
    destruct (IH (i + 1) (<[Z.to_nat i := mix_sample l r]> data) out)
      as (Hlo & Hkeep & Hmix); try lia; try assumption.
    { rewrite length_insert. assumption. }
    split; [assumption|]. split.
    + intros j Hj. rewrite Hkeep by lia. apply list_lookup_insert_ne. lia.
    + intros j Hj. destruct (Z.eq_dec j i) as [-> | Hne].
      * exists l, r. split; [assumption|]. split; [assumption|].
        rewrite Hkeep by lia. apply list_lookup_insert_eq. lia.
      * apply Hmix. lia.
Qed.

(** X14. Silence converts to silence: a buffer of [2 * frameCount] zero
    samples yields [frameCount] samples that are all [+0.0]. *)
Theorem convert_frames_silence (frameCount : Z) :
  0 <= frameCount -> frameCount * 4 < 2 ^ 32 ->
  convert_frames (replicate (Z.to_nat (2 * frameCount)) 0) frameCount
  = Some (replicate (Z.to_nat frameCount) fzero).
Proof.
  intros H0 Hfit.
  destruct (convert_frames_spec (replicate (Z.to_nat (2 * frameCount)) 0) frameCount
              H0 Hfit) as (out & Hout & Hlo & Hmix).
  { rewrite length_replicate. lia. }
  rewrite Hout. f_equal. apply list_eq. intros k.
  destruct (decide (k < Z.to_nat frameCount)%nat) as [Hk | Hk].
  - rewrite lookup_replicate_2 by assumption.
    destruct (Hmix (Z.of_nat k) ltac:(lia)) as (l & r & Hl & Hr & Ho).
    apply lookup_replicate in Hl as [-> _]. apply lookup_replicate in Hr as [-> _].
    rewrite Nat2Z.id in Ho. rewrite Ho. reflexivity.
  - rewrite !lookup_ge_None_2; [reflexivity| |]; rewrite ?length_replicate; lia.
Qed.

Lemma convert_frames_silence_witness :
  convert_frames (replicate (Z.to_nat (2 * 3)) 0) 3 = Some (replicate (Z.to_nat 3) fzero).
Proof. apply (convert_frames_silence 3); lia. Defined.

(** X15. The byte size of the sample buffer is computed in 32 bits.  For
    every frame count from 2^30 to 2^31 it wraps, the block allocated is
    shorter than the frames asked for, and the conversion loop reads past
    its end. *)
Theorem convert_frames_overrun (samples : list Z) (inNumberFrames : Z) :
  2 ^ 30 <= inNumberFrames <= 2 ^ 31 ->
  2 * Z.of_nat (length samples) = totalDataByteSize inNumberFrames ->
  totalDataByteSize inNumberFrames = 4 * inNumberFrames - 2 ^ 32 * (inNumberFrames / 2 ^ 30)
  /\ totalDataByteSize inNumberFrames < 4 * inNumberFrames
  /\ convert_frames samples inNumberFrames = None.
Proof.
  intros Hn Hlen.
  assert (Htot : totalDataByteSize inNumberFrames
                 = 4 * inNumberFrames - 2 ^ 32 * (inNumberFrames / 2 ^ 30)).
  { unfold totalDataByteSize, wrap32. rewrite bytesPerFrame_eq.
    rewrite Z.mod_eq by lia.
    replace (inNumberFrames * 4 / 2 ^ 32) with (inNumberFrames / 2 ^ 30); [lia|].
    change (2 ^ 32) with (2 ^ 30 * 4).
    rewrite Z.div_mul_cancel_r by lia. reflexivity. }
  assert (Hq : 1 <= inNumberFrames / 2 ^ 30) by (apply Z.div_le_lower_bound; lia).
  split; [assumption|]. split; [lia|].
  unfold convert_frames. apply convert_loop_overrun; lia.
Qed.

Lemma convert_frames_overrun_witness :
  totalDataByteSize 1073741824
  = 4 * 1073741824 - 2 ^ 32 * (1073741824 / 2 ^ 30)
  /\ totalDataByteSize 1073741824 < 4 * 1073741824
  /\ convert_frames [] 1073741824 = None.
Proof.
  apply (convert_frames_overrun [] 1073741824).
  - simpl. lia.
  - reflexivity.
Defined.

(** ** Further properties of the render callback *)

Lemma frees_no_enqueue frees :
  Forall (fun a => is_free a = true) frees -> List.filter is_enqueue frees = [].
Proof.
  induction 1 as [|a frees Ha _ IH]; [reflexivity|].
  simpl. rewrite IH. destruct a; try discriminate Ha. reflexivity.
Qed.

Lemma frees_not_enqueue frees t frame st :
  Forall (fun a => is_free a = true) frees -> ~ In (ActEnqueue t frame st) frees.
Proof.
  intros Hf Hin. rewrite Forall_forall in Hf.
  apply list_elem_of_In in Hin. specialize (Hf _ Hin). discriminate Hf.
Qed.

Lemma enqueues_app a b : enqueues (a ++ b) = (enqueues a + enqueues b)%nat.
Proof. unfold enqueues. rewrite List.filter_app, length_app. reflexivity. Qed.

Lemma enqueues_frees frees :
  Forall (fun a => is_free a = true) frees -> enqueues frees = 0%nat.
Proof. intros Hf. unfold enqueues. rewrite frees_no_enqueue by assumption. reflexivity. Qed.

Ltac count_leaf :=
  unfold enqueues; simpl; rewrite ?List.filter_app, ?length_app; simpl;
  repeat match goal with
         | H : Forall _ ?f |- _ => rewrite (frees_no_enqueue f H)
         end;
  simpl; lia.

Ltac no_enqueue_leaf :=
  let t := fresh "t" in let f := fresh "f" in let st := fresh "st" in
  let Hin := fresh "Hin" in
  intros t f st Hin; simpl in Hin; rewrite ?in_app_iff in Hin; simpl in Hin;
  repeat match goal with
         | H : Forall _ ?fr |- _ =>
             pose proof (frees_not_enqueue fr t f st H); clear H
         end;
  exfalso; intuition discriminate.

Ltac dead_leaf := split; [count_leaf | no_enqueue_leaf].

Lemma AudioInputCallback_enqueue_inv inRefCon inBusNumber inNumberFrames env g :
  let out := AudioInputCallback inRefCon inBusNumber inNumberFrames env g in
  (enqueues out.2 <= 1)%nat
  /\ forall t frame st,
       In (ActEnqueue t frame st) out.2 ->
       inBusNumber = 1
       /\ g_isCapturing g = true /\ g_tsf g = Some t
       /\ re_render env = noErr
       /\ re_rendered_count env = 1
       /\ is_Some (mData (re_rendered_buffer env))
       /\ totalDataByteSize inNumberFrames <= mDataByteSize (re_rendered_buffer env)
       /\ convert_frames (re_samples env) inNumberFrames = Some frame
       /\ st = re_enqueue env.
Proof.
  cbv zeta. unfold AudioInputCallback.
  destruct (Z.eqb_spec inBusNumber 1) as [Hbus | Hbus]; cbn [negb]; [|dead_leaf].
  destruct (g_isCapturing g) eqn:Hc; [|dead_leaf].
  destruct (g_tsf g) as [tsf|] eqn:Ht; [|dead_leaf].
  unfold AllocateAudioBufferList.
  destruct (re_malloc_list env) as [pl|]; [|dead_leaf].
  destruct (re_malloc_data env) as [pd|]; [|dead_leaf].
  pose proof (DeallocateAudioBufferList_only_free
                (Some (pl, {| mNumberBuffers := re_rendered_count env;
                              mBuffers := [re_rendered_buffer env] |}))) as Hfree.
  cbn [mNumberBuffers]. unfold finish.
  destruct (DeallocateAudioBufferList _) as [frees|];
    [specialize (Hfree frees eq_refl)|clear Hfree].
  - destruct (Z.eqb_spec (re_render env) noErr) as [Hr | Hr]; cbn [negb]; [|dead_leaf].
    destruct (Z.eqb_spec (re_rendered_count env) 1) as [Hn | Hn]; cbn [negb orb];
      [|dead_leaf].
    destruct (mData (re_rendered_buffer env)) as [p|] eqn:Hp; [|dead_leaf].
    cbn [negb bool_decide decide_rel]. simpl (negb (bool_decide _)).
    destruct (Z.ltb_spec (mDataByteSize (re_rendered_buffer env))
                         (totalDataByteSize inNumberFrames)) as [Hsz | Hsz];
      [dead_leaf|].
    destruct (re_new_data env); cbn [negb]; [|dead_leaf].
    destruct (re_resize env); cbn [negb]; [|dead_leaf].
    destruct (convert_frames (re_samples env) inNumberFrames) as [data|] eqn:Hdata;
      [|dead_leaf].
    destruct (negb (re_enqueue env =? napi_ok)).
    + split; [count_leaf|].
      intros t f st Hin. simpl in Hin. rewrite ?in_app_iff in Hin. simpl in Hin.
      pose proof (frees_not_enqueue frees t f st Hfree) as Hno.
      assert (Heq : ActEnqueue tsf data (re_enqueue env) = ActEnqueue t f st)
        by (intuition discriminate).
      inversion Heq; subst. repeat split; eauto.
    + split; [count_leaf|].
      intros t f st Hin. simpl in Hin. rewrite ?in_app_iff in Hin. simpl in Hin.
      pose proof (frees_not_enqueue frees t f st Hfree) as Hno.
      assert (Heq : ActEnqueue tsf data (re_enqueue env) = ActEnqueue t f st)
        by (intuition discriminate).
      inversion Heq; subst. repeat split; eauto.
  - destruct (Z.eqb_spec (re_render env) noErr) as [Hr | Hr]; cbn [negb]; [|dead_leaf].
    destruct (Z.eqb_spec (re_rendered_count env) 1) as [Hn | Hn]; cbn [negb orb];
      [|dead_leaf].
    destruct (mData (re_rendered_buffer env)) as [p|] eqn:Hp; [|dead_leaf].
    simpl (negb (bool_decide _)).
    destruct (Z.ltb_spec (mDataByteSize (re_rendered_buffer env))
                         (totalDataByteSize inNumberFrames)) as [Hsz | Hsz];
      [dead_leaf|].
    destruct (re_new_data env); cbn [negb]; [|dead_leaf].
    destruct (re_resize env); cbn [negb]; [|dead_leaf].
    destruct (convert_frames (re_samples env) inNumberFrames) as [data|] eqn:Hdata;
      [|dead_leaf].
    destruct (negb (re_enqueue env =? napi_ok)).
    + split; [count_leaf|].
      intros t f st Hin. simpl in Hin. rewrite ?in_app_iff in Hin. simpl in Hin.
      assert (Heq : ActEnqueue tsf data (re_enqueue env) = ActEnqueue t f st)
        by (intuition discriminate).
      inversion Heq; subst. repeat split; eauto.
    + split; [count_leaf|].
      intros t f st Hin. simpl in Hin. rewrite ?in_app_iff in Hin. simpl in Hin.
      assert (Heq : ActEnqueue tsf data (re_enqueue env) = ActEnqueue t f st)
        by (intuition discriminate).
      inversion Heq; subst. repeat split; eauto.
Qed.

(** X16. The callback enqueues at most one frame per invocation, and only
    a frame produced from a successful render: whenever it enqueues, the
    invocation was on the input bus of a capturing session, the frame went to
    the session's delivery channel, the render returned [noErr] and left one
    buffer with data of at least the expected size, and the frame is the
    conversion of that buffer's samples. *)
Theorem AudioInputCallback_enqueue_sound inRefCon inBusNumber inNumberFrames env g :
  let out := AudioInputCallback inRefCon inBusNumber inNumberFrames env g in
  (enqueues out.2 <= 1)%nat
  /\ forall t frame st,
       In (ActEnqueue t frame st) out.2 ->
       inBusNumber = 1
       /\ g_isCapturing g = true /\ g_tsf g = Some t
       /\ re_render env = noErr
       /\ re_rendered_count env = 1
       /\ is_Some (mData (re_rendered_buffer env))
       /\ totalDataByteSize inNumberFrames <= mDataByteSize (re_rendered_buffer env)
       /\ convert_frames (re_samples env) inNumberFrames = Some frame
       /\ st = re_enqueue env.
Proof. apply AudioInputCallback_enqueue_inv. Qed.

Lemma AudioInputCallback_enqueue_sound_witness :
  1 = 1
  /\ g_isCapturing demo_capturing = true /\ g_tsf demo_capturing = Some demo_channel
  /\ re_render demo_render_env = noErr
  /\ re_rendered_count demo_render_env = 1
  /\ is_Some (mData (re_rendered_buffer demo_render_env))
  /\ totalDataByteSize 2 <= mDataByteSize (re_rendered_buffer demo_render_env)
  /\ convert_frames (re_samples demo_render_env) 2
     = Some [S754_zero false; S754_finite true 8388608 (-39)]
  /\ napi_ok = re_enqueue demo_render_env.
Proof.
  apply (proj2 (AudioInputCallback_enqueue_sound demo_unit 1 2 demo_render_env
                  demo_capturing)
               demo_channel [S754_zero false; S754_finite true 8388608 (-39)] napi_ok).
  vm_compute. do 7 right. left. reflexivity.
Defined.

Ltac free_count_leaf :=
  let q := fresh "q" in
  intros q; unfold frees_of; simpl; rewrite ?List.filter_app, ?length_app; simpl;
  repeat match goal with
         | |- context [Pos.eqb ?a ?b] => destruct (Pos.eqb_spec a b)
         end;
  simpl; first [lia | congruence].

Ltac free_own_leaf :=
  let q := fresh "q" in let Hin := fresh "Hin" in
  intros q Hin; simpl in Hin; rewrite ?in_app_iff in Hin; simpl in Hin;
  repeat match goal with
         | H : _ \/ _ |- _ => destruct H
         | H : False |- _ => destruct H
         | H : ActFree _ = ActFree _ |- _ => inversion H; subst; clear H
         | H : _ = ActFree _ |- _ => discriminate H
         end;
  auto.

Ltac defined_leaf :=
  split;
  [ simpl; first [solve [auto] | apply negb_true_iff; assumption]
  | split; [free_count_leaf | free_own_leaf] ].

(** X17. An invocation taken on its own, as one atomic step, stays within
    its memory when [malloc] hands out two distinct blocks, the render
    leaves at most one buffer in the list and does not replace the data
    pointer, and the data block holds the frames asked for (fewer than 2^30
    of them): it reads nothing outside the one-slot buffer list and the
    sample block, it passes to [free] only blocks it obtained from [malloc]
    in this invocation and none of them twice, and it ends by returning
    [noErr], -1 or the status of the failed render, or is left by the
    [std::bad_alloc] of a failed [new AudioData()]. *)
Theorem AudioInputCallback_defined inRefCon inBusNumber inNumberFrames env g :
  (forall pl pd, re_malloc_list env = Some pl -> re_malloc_data env = Some pd -> pl <> pd) ->
  0 <= re_rendered_count env <= 1 ->
  (forall p, mData (re_rendered_buffer env) = Some p -> re_malloc_data env = Some p) ->
  0 <= inNumberFrames -> inNumberFrames * 4 < 2 ^ 32 ->
  2 * inNumberFrames <= Z.of_nat (length (re_samples env)) ->
  let out := AudioInputCallback inRefCon inBusNumber inNumberFrames env g in
  match out.1 with
  | CbReturn status => status = noErr \/ status = -1 \/ status = re_render env
  | CbUncaught => re_new_data env = false
  | CbUndefined => False
  end
  /\ (forall p, (frees_of p out.2 <= 1)%nat)
  /\ (forall p, In (ActFree p) out.2 ->
        re_malloc_list env = Some p \/ re_malloc_data env = Some p).
Proof.
  intros Hdistinct Hcount Hkept H0 Hfit Hlen. cbv zeta.
  unfold AudioInputCallback.
  destruct (negb (inBusNumber =? 1)); [defined_leaf|].
  destruct (if g_isCapturing g then g_tsf g else None) as [tsf|]; [|defined_leaf].
  unfold AllocateAudioBufferList.
  destruct (re_malloc_list env) as [pl|] eqn:Hl; [|defined_leaf].
  destruct (re_malloc_data env) as [pd|] eqn:Hd; [|defined_leaf].
  specialize (Hdistinct pl pd eq_refl eq_refl).
  destruct (convert_frames_spec (re_samples env) inNumberFrames H0 Hfit Hlen)
    as (frame & Hframe & _).
  rewrite Hframe.
  unfold DeallocateAudioBufferList, finish. cbn [mBuffers mNumberBuffers].
  assert (Hn : re_rendered_count env = 0 \/ re_rendered_count env = 1) by lia.
  destruct (mData (re_rendered_buffer env)) as [p|] eqn:Hp.
  - specialize (Hkept p eq_refl). inversion Hkept; subst p.
    destruct Hn as [-> | ->]; simpl; rewrite ?Hp;
      repeat match goal with
             | |- context [if ?b then _ else _] => destruct b eqn:?
             end; defined_leaf.
  - destruct Hn as [-> | ->]; simpl; rewrite ?Hp;
      repeat match goal with
             | |- context [if ?b then _ else _] => destruct b eqn:?
             end; defined_leaf.
Qed.

Lemma AudioInputCallback_defined_witness :
  let out := AudioInputCallback demo_unit 1 2 demo_render_env demo_capturing in
  match out.1 with
  | CbReturn status => status = noErr \/ status = -1 \/ status = re_render demo_render_env
  | CbUncaught => re_new_data demo_render_env = false
  | CbUndefined => False
  end
  /\ (forall p, (frees_of p out.2 <= 1)%nat)
  /\ (forall p, In (ActFree p) out.2 ->
        re_malloc_list demo_render_env = Some p \/ re_malloc_data demo_render_env = Some p).
Proof.
  apply (AudioInputCallback_defined demo_unit 1 2 demo_render_env demo_capturing).
  - intros pl pd [= <-] [= <-]. discriminate.
  - simpl. lia.
  - intros p Hp. exact Hp.
  - lia.
  - lia.
  - simpl. lia.
Defined.

Lemma mix_sample_in_unit_range l r :
  is_int16 l -> is_int16 r -> in_unit_range (mix_sample l r) = true.
Proof.
  intros Hl Hr. unfold in_unit_range.
  rewrite mix_sample_canon by assumption.
  rewrite canon_ge_minus_one, canon_le_one by (unfold is_int16 in *; lia).
  destruct (canon (l + r) (-16)) eqn:Hc; try reflexivity.
  exfalso. destruct (l + r); discriminate Hc.
Qed.

Lemma convert_frames_sound samples n frame :
  0 <= n -> n * 4 < 2 ^ 32 ->
  convert_frames samples n = Some frame ->
  length frame = Z.to_nat n
  /\ forall i, 0 <= i < n ->
       exists l r, samples !! Z.to_nat (2 * i) = Some l
                   /\ samples !! Z.to_nat (2 * i + 1) = Some r
                   /\ frame !! Z.to_nat i = Some (mix_sample l r).
Proof.
  intros H0 Hfit Hrun. unfold convert_frames in Hrun.
  destruct (convert_loop_sound samples n H0 ltac:(lia) (Z.to_nat n) 0
              (replicate (Z.to_nat n) fzero) frame) as (Hlen & _ & Hmix);
    try lia; try assumption.
  - apply length_replicate.
  - auto.
Qed.

(** X18. Every frame the callback hands to the delivery channel has
    exactly [inNumberFrames] samples, and when the rendered samples are
    int16 values each of them is a number between -1.0 and 1.0 (never NaN
    or an infinity). *)
Theorem enqueued_frame_in_unit_range inRefCon inBusNumber inNumberFrames env g t frame st :
  0 <= inNumberFrames -> inNumberFrames * 4 < 2 ^ 32 ->
  Forall is_int16 (re_samples env) ->
  In (ActEnqueue t frame st)
     (AudioInputCallback inRefCon inBusNumber inNumberFrames env g).2 ->
  length frame = Z.to_nat inNumberFrames
  /\ Forall (fun x => in_unit_range x = true) frame.
Proof.
  intros H0 Hfit Hint Hin.
  destruct (AudioInputCallback_enqueue_inv inRefCon inBusNumber inNumberFrames env g)
    as [_ Hinv].
  destruct (Hinv t frame st Hin) as (_ & _ & _ & _ & _ & _ & _ & Hconv & _).
  destruct (convert_frames_sound _ _ _ H0 Hfit Hconv) as [Hlen Hmix].
  split; [assumption|].
  apply Forall_lookup. intros k x Hk.
  pose proof (lookup_lt_Some _ _ _ Hk) as Hlt.
  destruct (Hmix (Z.of_nat k) ltac:(lia)) as (l & r & Hl & Hr & Hx).
  rewrite Nat2Z.id, Hk in Hx. inversion Hx; subst x.
  rewrite Forall_lookup in Hint.
  apply mix_sample_in_unit_range; eapply Hint; eassumption.
Qed.

Lemma enqueued_frame_in_unit_range_witness :
  length [S754_zero false; S754_finite true 8388608 (-39)] = Z.to_nat 2
  /\ Forall (fun x => in_unit_range x = true)
            [S754_zero false; S754_finite true 8388608 (-39)].
Proof.
  apply (enqueued_frame_in_unit_range demo_unit 1 2 demo_render_env demo_capturing
           demo_channel [S754_zero false; S754_finite true 8388608 (-39)] napi_ok).
  - lia.
  - lia.
  - unfold is_int16. repeat constructor; lia.
  - vm_compute. do 7 right. left. reflexivity.
Defined.

(** ** Ownership of the frame objects *)

Lemma frees_hold_no_frame frees :
  Forall (fun a => is_free a = true) frees ->
  created_frames frees = 0%nat /\ deleted_frames frees = 0%nat /\ accepted_frames frees = [].
Proof.
  induction 1 as [|a frees Ha _ (Hc & Hd & Hacc)]; [repeat split|].
  unfold created_frames, deleted_frames, accepted_frames in *.
  destruct a; try discriminate Ha. simpl. auto.
Qed.

Lemma created_frames_app a b :
  created_frames (a ++ b) = (created_frames a + created_frames b)%nat.
Proof. unfold created_frames. rewrite List.filter_app, length_app. reflexivity. Qed.

Lemma deleted_frames_app a b :
  deleted_frames (a ++ b) = (deleted_frames a + deleted_frames b)%nat.
Proof. unfold deleted_frames. rewrite List.filter_app, length_app. reflexivity. Qed.

Lemma accepted_frames_app a b :
  accepted_frames (a ++ b) = accepted_frames a ++ accepted_frames b.
Proof. apply flat_map_app. Qed.

Ltac frame_leaf :=
  rewrite ?created_frames_app, ?deleted_frames_app, ?accepted_frames_app, ?length_app;
  repeat match goal with
         | H : Forall _ ?fr |- _ =>
             let Hc := fresh in let Hd := fresh in let Ha := fresh in
             destruct (frees_hold_no_frame fr H) as (Hc & Hd & Ha);
             rewrite ?Hc, ?Hd, ?Ha; clear H
         end;
  try reflexivity.

Ltac balance_leaf :=
  let Hdef := fresh "Hdef" in
  cbn [fst snd]; intros Hdef; try (exfalso; apply Hdef; reflexivity);
  (split; [frame_leaf; unfold created_frames, deleted_frames, accepted_frames; simpl;
           repeat match goal with H : (_ =? _) = _ |- _ => rewrite H end;
           reflexivity
          |frame_leaf; unfold created_frames; simpl; lia]).

Lemma AudioInputCallback_frame_balance inRefCon inBusNumber inNumberFrames env g :
  let out := AudioInputCallback inRefCon inBusNumber inNumberFrames env g in
  out.1 <> CbUndefined ->
  created_frames out.2 = (deleted_frames out.2 + length (accepted_frames out.2))%nat
  /\ (created_frames out.2 <= 1)%nat.
Proof.
  cbv zeta. unfold AudioInputCallback.
  destruct (negb (inBusNumber =? 1));
    [intros _; split; [reflexivity|unfold created_frames; simpl; lia]|].
  destruct (if g_isCapturing g then g_tsf g else None) as [tsf|];
    [|intros _; split; [reflexivity|unfold created_frames; simpl; lia]].
  unfold AllocateAudioBufferList.
  destruct (re_malloc_list env) as [pl|];
    [|intros _; split; [reflexivity|unfold created_frames; simpl; lia]].
  destruct (re_malloc_data env) as [pd|];
    [|intros _; split; [reflexivity|unfold created_frames; simpl; lia]].
  pose proof (DeallocateAudioBufferList_only_free
                (Some (pl, {| mNumberBuffers := re_rendered_count env;
                              mBuffers := [re_rendered_buffer env] |}))) as Hfree.
  cbn [mNumberBuffers]. unfold finish.
  destruct (DeallocateAudioBufferList _) as [frees|];
    [specialize (Hfree frees eq_refl)|clear Hfree];
    (destruct (re_render env =? noErr); cbn [negb]; [|balance_leaf]);
    (destruct (negb (re_rendered_count env =? 1)
               || negb (bool_decide (is_Some (mData (re_rendered_buffer env)))));
       [balance_leaf|]);
    (destruct (mDataByteSize (re_rendered_buffer env) <? totalDataByteSize inNumberFrames);
       [balance_leaf|]);
    (destruct (re_new_data env); cbn [negb]; [|balance_leaf]);
    (destruct (re_resize env); cbn [negb]; [|balance_leaf]);
    (destruct (convert_frames (re_samples env) inNumberFrames) as [data|];
       [|balance_leaf]);
    (destruct (re_enqueue env =? napi_ok) eqn:Hst; cbn [negb]; balance_leaf).
Qed.

Lemma DeliverFrame_deletes_once env_non_null samples denv :
  delivery_deletes (DeliverFrame env_non_null (Some samples) denv) = 1%nat.
Proof.
  unfold DeliverFrame, delivery_deletes.
  destruct env_non_null; [|reflexivity].
  destruct (de_array_buffer_new denv); reflexivity.
Qed.

Lemma DeliverFrame_deletes_sum env_non_null denv (frames : list (list float32)) :
  length frames
  = list_sum (map (fun frame =>
                     delivery_deletes (DeliverFrame env_non_null (Some frame) denv))
                  frames).
Proof.
  unfold list_sum. induction frames as [|f fs IH]; [reflexivity|].
  cbn [map fold_right length].
  rewrite DeliverFrame_deletes_once, <- IH. reflexivity.
Qed.

(** X19. Every frame object is deleted exactly once.  In an invocation
    that does not run into undefined behaviour the callback creates at most
    one frame object; it deletes the object itself when the resize or the
    enqueue fails, and otherwise hands it to the delivery channel, whose
    lambda deletes it exactly once when it is run, with or without an
    environment and whether creating the array buffer or calling the
    JavaScript callback throws or not. *)
Theorem frame_deleted_exactly_once inRefCon inBusNumber inNumberFrames env g
    env_non_null denv :
  let out := AudioInputCallback inRefCon inBusNumber inNumberFrames env g in
  out.1 <> CbUndefined ->
  (created_frames out.2 <= 1)%nat
  /\ created_frames out.2
     = (deleted_frames out.2
        + list_sum (map (fun frame =>
                           delivery_deletes (DeliverFrame env_non_null (Some frame) denv))
                        (accepted_frames out.2)))%nat.
Proof.
  intros out Hdef.
  destruct (AudioInputCallback_frame_balance inRefCon inBusNumber inNumberFrames env g Hdef)
    as [Hbal Hle].
  fold out in Hbal, Hle. split; [assumption|]. rewrite Hbal. f_equal.
  apply DeliverFrame_deletes_sum.
Qed.

Lemma frame_deleted_exactly_once_witness :
  let out := AudioInputCallback demo_unit 1 2 demo_render_env demo_capturing in
  (created_frames out.2 <= 1)%nat
  /\ created_frames out.2
     = (deleted_frames out.2
        + list_sum (map (fun frame =>
                           delivery_deletes
                             (DeliverFrame true (Some frame)
                                {| de_array_buffer_new := JsReturns;
                                   de_call := JsThrowsNapiError |}))
                        (accepted_frames out.2)))%nat.
Proof.
  apply (frame_deleted_exactly_once demo_unit 1 2 demo_render_env demo_capturing true
           {| de_array_buffer_new := JsReturns; de_call := JsThrowsNapiError |}).
  vm_compute. discriminate.
Defined.

(** The lambda calls the JavaScript callback at most once, only when
    it has an environment and the array buffer could be created, and passes
    it the samples of the frame unchanged in a buffer of four bytes per
    sample. *)
Lemma DeliverFrame_payload env_non_null samples denv :
  delivery_calls (DeliverFrame env_non_null (Some samples) denv)
  = (if env_non_null
     then match de_array_buffer_new denv with JsReturns => [samples] | _ => [] end
     else [])
  /\ (forall byteLength,
        In (DlvArrayBufferNew byteLength) (DeliverFrame env_non_null (Some samples) denv) ->
        byteLength = 4 * Z.of_nat (length samples))
  /\ DeliverFrame env_non_null None denv = [].
Proof.
  unfold DeliverFrame, delivery_calls, sizeof_float.
  destruct env_non_null; simpl.
  - destruct (de_array_buffer_new denv); simpl; repeat split;
      intros b Hb; intuition (try discriminate);
      match goal with H : DlvArrayBufferNew _ = DlvArrayBufferNew _ |- _ =>
        inversion H; lia end.
  - repeat split. intros b [Hb | []]. discriminate Hb.
Qed.

(** ** Failure paths of the render callback *)

(** X20. When one of the two allocations of the buffer list fails, the
    callback returns -1 without rendering or enqueuing anything, and it
    holds no memory afterwards: if the list struct had been allocated before
    the data block failed, the struct is freed. *)
Theorem AudioInputCallback_allocation_failure inRefCon inNumberFrames env g tsf :
  g_isCapturing g = true -> g_tsf g = Some tsf ->
  re_malloc_list env = None \/ re_malloc_data env = None ->
  let out := AudioInputCallback inRefCon 1 inNumberFrames env g in
  out.1 = CbReturn (-1)
  /\ existsb is_render out.2 = false
  /\ existsb is_enqueue out.2 = false
  /\ (forall pl, re_malloc_list env = Some pl ->
        out.2 = [ActCheckBus; ActCheckSession; ActMallocList (Some pl);
                 ActMallocData (totalDataByteSize inNumberFrames) None; ActFree pl]
        /\ frees_of pl out.2 = 1%nat).
Proof.
  intros Hc Ht Hfail. cbv zeta.
  unfold AudioInputCallback, AllocateAudioBufferList. rewrite Hc, Ht. simpl.
  destruct (re_malloc_list env) as [pl|] eqn:Hl.
  - destruct Hfail as [Hf | Hf]; [discriminate|]. rewrite Hf. simpl.
    split; [reflexivity|]. split; [reflexivity|]. split; [reflexivity|].
    intros pl' Hpl'. inversion Hpl'; subst. split; [reflexivity|].
    unfold frees_of. simpl. rewrite Pos.eqb_refl. reflexivity.
  - simpl. split; [reflexivity|]. split; [reflexivity|]. split; [reflexivity|].
    intros pl Hpl. discriminate Hpl.
Qed.

Lemma AudioInputCallback_allocation_failure_witness :
  let out := AudioInputCallback demo_unit 1 2 demo_render_env_no_memory demo_capturing in
  out.1 = CbReturn (-1)
  /\ existsb is_render out.2 = false
  /\ existsb is_enqueue out.2 = false
  /\ (forall pl, re_malloc_list demo_render_env_no_memory = Some pl ->
        out.2 = [ActCheckBus; ActCheckSession; ActMallocList (Some pl);
                 ActMallocData (totalDataByteSize 2) None; ActFree pl]
        /\ frees_of pl out.2 = 1%nat).
Proof.
  apply (AudioInputCallback_allocation_failure demo_unit 2 demo_render_env_no_memory
           demo_capturing demo_channel).
  - reflexivity.
  - reflexivity.
  - right. reflexivity.
Defined.

(** X21. When [AudioUnitRender] fails and leaves the buffer list as it was
    allocated, the callback returns the status of the render, creates no
    frame and enqueues nothing, and frees the data block and the list struct
    once each. *)
Theorem AudioInputCallback_render_failure inRefCon inNumberFrames env g tsf pl pd :
  g_isCapturing g = true -> g_tsf g = Some tsf ->
  re_malloc_list env = Some pl -> re_malloc_data env = Some pd ->
  re_render env <> noErr ->
  re_rendered_count env = 1 -> mData (re_rendered_buffer env) = Some pd ->
  AudioInputCallback inRefCon 1 inNumberFrames env g
  = (CbReturn (re_render env),
     [ActCheckBus; ActCheckSession; ActMallocList (Some pl);
      ActMallocData (totalDataByteSize inNumberFrames) (Some pd);
      ActRender inRefCon inNumberFrames (re_render env);
      ActFree pd; ActFree pl]).
Proof.
  intros Hc Ht Hl Hd Hr Hn Hp.
  unfold AudioInputCallback, AllocateAudioBufferList, DeallocateAudioBufferList, finish.
  cbn [mBuffers mNumberBuffers].
  rewrite Hc, Ht, Hl, Hd, Hn. simpl. rewrite Hp.
  destruct (Z.eqb_spec (re_render env) noErr); [contradiction|reflexivity].
Qed.

Lemma AudioInputCallback_render_failure_witness :
  AudioInputCallback demo_unit 1 2 demo_render_env_render_fails demo_capturing
  = (CbReturn (re_render demo_render_env_render_fails),
     [ActCheckBus; ActCheckSession; ActMallocList (Some demo_list_ptr);
      ActMallocData (totalDataByteSize 2) (Some demo_data_ptr);
      ActRender demo_unit 2 (re_render demo_render_env_render_fails);
      ActFree demo_data_ptr; ActFree demo_list_ptr]).
Proof.
  apply (AudioInputCallback_render_failure demo_unit 2 demo_render_env_render_fails
           demo_capturing demo_channel demo_list_ptr demo_data_ptr).
  - reflexivity.
  - reflexivity.
  - reflexivity.
  - reflexivity.
  - discriminate.
  - reflexivity.
  - reflexivity.
Defined.

(** ** Further invariants of the session *)

Lemma StartCapture_tsf_guard info env g :
  (StartCapture info env g).1.1 = Thrown Error_TsfExists ->
  g_isCapturing g = false /\ is_Some (g_tsf g).
Proof.
  unfold StartCapture.
  destruct ((length info <? 2)%nat || negb (IsString (info_at info 0))
            || negb (IsFunction (info_at info 1))); [discriminate|].
  destruct (g_isCapturing g); [discriminate|].
  destruct (g_tsf g) as [t0|]; [intros _; split; [reflexivity|eauto]|].
  simpl.
  destruct (GetAudioDeviceIDFromUID (se_hal env) (Utf8Value (info_at info 0)))
    as [[status dev] tr0].
  destruct (se_instance_new env) as [st_new out_new]. simpl.
  repeat match goal with
         | |- context [if ?b then _ else _] => destruct b
         | |- context [match ?x with Some _ => _ | None => _ end] => destruct x
         end; simpl; discriminate.
Qed.

(** X22. In every state the module reaches the delivery channel exists if
    and only if the capturing flag is set.  Hence the second entry guard of
    [StartCapture] never fires: no history leads to the error
    "ThreadSafeFunction seems to already exist", and a [StopCapture] on a
    session that is not capturing never finds a channel to release. *)
Theorem channel_iff_capturing g :
  reachable g ->
  (is_Some (g_tsf g) <-> g_isCapturing g = true)
  /\ (forall info env, (StartCapture info env g).1.1 <> Thrown Error_TsfExists)
  /\ (forall env, g_isCapturing g = false -> (StopCapture env g).2 = []).
Proof.
  intros Hr. destruct (reachable_invariant g Hr) as [Hset Hclear].
  assert (Hiff : is_Some (g_tsf g) <-> g_isCapturing g = true).
  { split.
    - intros Ht. destruct (g_isCapturing g); [reflexivity|].
      destruct (Hclear eq_refl) as [_ Hnone]. rewrite Hnone in Ht.
      destruct Ht as [? Ht]. discriminate Ht.
    - intros Hc. apply Hset. assumption. }
  split; [assumption|]. split.
  - intros info env Hthrown.
    destruct (StartCapture_tsf_guard info env g Hthrown) as [Hc Ht].
    apply Hiff in Ht. congruence.
  - intros env Hc. rewrite StopCapture_idle; [reflexivity|].
    apply session_invariant_idle; [split|]; assumption.
Qed.

Lemma channel_iff_capturing_witness :
  (is_Some (g_tsf demo_capturing) <-> g_isCapturing demo_capturing = true)
  /\ (forall info env, (StartCapture info env demo_capturing).1.1 <> Thrown Error_TsfExists)
  /\ (forall env, g_isCapturing demo_capturing = false ->
        (StopCapture env demo_capturing).2 = []).
Proof.
  apply (channel_iff_capturing demo_capturing).
  exists [OpStartCapture demo_info demo_start_env]. reflexivity.
Defined.

Lemma configuration_succeeds_resolved info env :
  configuration_succeeds info env = true ->
  (GetAudioDeviceIDFromUID (se_hal env) (Utf8Value (info_at info 0))).1.2
  <> kAudioDeviceUnknown.
Proof.
  unfold configuration_succeeds.
  destruct (GetAudioDeviceIDFromUID (se_hal env) (Utf8Value (info_at info 0)))
    as [[status dev] tr]. simpl.
  destruct (status =? noErr); [|discriminate]. simpl.
  destruct (Z.eqb_spec dev kAudioDeviceUnknown); [discriminate|]. intros _. assumption.
Qed.

Lemma target_known_step op g :
  session_invariant g ->
  (g_isCapturing g = true -> g_targetDeviceID g <> kAudioDeviceUnknown) ->
  g_isCapturing (run_op op g) = true ->
  g_targetDeviceID (run_op op g) <> kAudioDeviceUnknown.
Proof.
  intros Hinv Hknown. destruct op as [h | info env | env | r b n env]; simpl.
  - assumption.
  - destruct (g_isCapturing g) eqn:Hc.
    + rewrite StartCapture_while_capturing by assumption. simpl. intros _. auto.
    + pose proof (StartCapture_from_idle info env g
                    (session_invariant_idle g Hinv Hc)) as H. cbv zeta in H.
      destruct (arguments_ok info && configuration_succeeds info env) eqn:Hok.
      * destruct H as (u & t & _ & _ & _ & -> & _). simpl. intros _.
        apply andb_true_iff in Hok as [_ Hconf].
        apply configuration_succeeds_resolved. assumption.
      * destruct H as (e & _ & -> & _). simpl. congruence.
  - rewrite StopCapture_clears by assumption. simpl. discriminate.
  - assumption.
Qed.

Lemma target_known_run ops : forall g,
  session_invariant g ->
  (g_isCapturing g = true -> g_targetDeviceID g <> kAudioDeviceUnknown) ->
  g_isCapturing (run_ops ops g) = true ->
  g_targetDeviceID (run_ops ops g) <> kAudioDeviceUnknown.
Proof.
  induction ops as [|op ops IH]; intros g Hinv Hknown; simpl; [assumption|].
  apply IH.
  - apply run_op_invariant. assumption.
  - apply target_known_step; assumption.
Qed.

(** X23. While the module is capturing, the target device id is the id of
    a device the lookup resolved, never [kAudioDeviceUnknown]; after a
    [StopCapture] of a capturing session it is [kAudioDeviceUnknown]
    again. *)
Theorem target_known_while_capturing g :
  reachable g ->
  (g_isCapturing g = true -> g_targetDeviceID g <> kAudioDeviceUnknown)
  /\ (forall env, g_isCapturing g = true ->
        g_targetDeviceID (StopCapture env g).1.2 = kAudioDeviceUnknown).
Proof.
  intros Hr. split.
  - destruct Hr as [ops ->]. apply target_known_run.
    + apply idle_invariant. repeat split.
    + discriminate.
  - intros env Hc.
    rewrite StopCapture_clears by (apply reachable_invariant; assumption).
    simpl. rewrite Hc. reflexivity.
Qed.

Lemma target_known_while_capturing_witness :
  g_targetDeviceID demo_capturing <> kAudioDeviceUnknown.
Proof.
  apply (proj1 (target_known_while_capturing demo_capturing
                  (ex_intro _ [OpStartCapture demo_info demo_start_env] eq_refl))).
  reflexivity.
Defined.
